(** * A shallow embedding of the message codec, the pending maps, the RTO
      timer and the UDP connection of the [net] repository.

    Source files embedded here:
    - [msg/msg.go]           Message, UDPMessage
    - [conn/pending_map.go]  PendingMap, UDPPendingMap
    - [conn/const.go]        BBR fixed-point constants
    - the UDP connection ([UDPConn]: Write, WriteBytes, Ack, ReadLoop)

    Conventions.  A [uint32] is a [Z] with its wrap-around written out
    ([wrap32]); a Go [byte] is a [Byte.byte]; a [[]byte] is a [list byte];
    [time.Time] and [time.Duration] are [Z] (nanoseconds); [time.Now()] is an
    explicit argument [now].  A pointer [*msg.Message] is a location in an
    explicit heap.  A Go call either returns or panics ([outcome]). *)

From Stdlib Require Import ZArith Lia.
From Stdlib Require Import Strings.Byte.
From Stdlib Require Import QArith.QArith_base QArith.Qround.
From stdpp Require Import gmap strings list fin_maps.

Local Open Scope Z_scope.

(* ===================================================================== *)
(** ** Go runtime: panics, bytes, big-endian words, CRC-32               *)
(* ===================================================================== *)

Inductive panic_value :=
| PanicIndexOutOfRange            (* runtime error: index or slice bounds *)
| PanicNilPointer                 (* runtime error: nil pointer dereference *)
| PanicMsgLen (len max : Z)       (* panic(fmt.Errorf("msg len(%d) >  max len(%d)", ..)) *)
| PanicStr (s : string).          (* panic("...") *)

Inductive outcome (A : Type) :=
| Ret (a : A)
| Panic (p : panic_value).
Arguments Ret {A} a.
Arguments Panic {A} p.

Definition returns {A} (o : outcome A) : Prop := exists a, o = Ret a.

Definition wrap32 (z : Z) : Z := z mod 2 ^ 32.

Definition byte_of_Z (z : Z) : byte :=
  match Byte.of_N (Z.to_N (z mod 256)) with
  | Some b => b
  | None => x00
  end.

Definition Z_of_byte (b : byte) : Z := Z.of_N (Byte.to_N b).

(** [binary.BigEndian.PutUint32] as the four bytes it stores. *)
Definition be32 (v : Z) : list byte :=
  [ byte_of_Z (Z.shiftr v 24); byte_of_Z (Z.shiftr v 16);
    byte_of_Z (Z.shiftr v 8); byte_of_Z v ].

(** [binary.BigEndian.Uint32] on a slice; it panics on fewer than 4 bytes. *)
Definition Uint32 (b : list byte) : outcome Z :=
  match b with
  | b0 :: b1 :: b2 :: b3 :: _ =>
      Ret (Z.lor (Z.lor (Z.lor (Z.shiftl (Z_of_byte b0) 24)
                               (Z.shiftl (Z_of_byte b1) 16))
                        (Z.shiftl (Z_of_byte b2) 8))
                 (Z_of_byte b3))
  | _ => Panic PanicIndexOutOfRange
  end.

(** [make([]byte, n)]. *)
Definition make (n : Z) : list byte := replicate (Z.to_nat n) x00.

(** [copy(dst[off:], src)]: writes [min (len dst - off) (len src)] bytes. *)
Definition copy_at (off : nat) (src dst : list byte) : list byte :=
  take off dst ++ take (length dst - off) src
               ++ drop (off + length src) dst.

(** [hash/crc32.ChecksumIEEE] of the Go standard library, written out bit by
    bit (reflected polynomial 0xEDB88320, initial value and final xor
    0xFFFFFFFF). *)
Definition crc_bit (c : Z) : Z :=
  if Z.testbit c 0 then Z.lxor (Z.shiftr c 1) 0xEDB88320 else Z.shiftr c 1.

Definition crc_byte (c : Z) (b : byte) : Z :=
  Nat.iter 8 crc_bit (Z.lxor c (Z_of_byte b)).

Definition ChecksumIEEE (data : list byte) : Z :=
  Z.lxor (fold_left crc_byte data 0xFFFFFFFF) 0xFFFFFFFF.

(* ===================================================================== *)
(** ** msg: constants                                                    *)
(* ===================================================================== *)

(** [msg/const.go] is not among the sources.  The offsets below follow the
    wire layout of the spec,
    [| crc32 (4) | type (1) | seq (4) | len (4) | body |], with
    [MSG_HEADER_SIZE = 9] and [PKG_HEADER_SIZE = 4]. *)

(** Modelled from the spec: [msg/const.go] is missing; offset of the type
    byte in a message. *)
Definition MSG_TYPE_BEGIN : nat := 0.
(** Modelled from the spec: [msg/const.go] is missing; the seq field is
    bytes 1 to 4. *)
Definition MSG_SEQ_BEGIN : nat := 1.
(** Modelled from the spec: [msg/const.go] is missing; end of the seq
    field. *)
Definition MSG_SEQ_END : nat := 5.
(** Modelled from the spec: [msg/const.go] is missing; the len field is
    bytes 5 to 8. *)
Definition MSG_LEN_BEGIN : nat := 5.
(** Modelled from the spec: [msg/const.go] is missing; end of the len
    field. *)
Definition MSG_LEN_END : nat := 9.
(** Modelled from the spec: [msg/const.go] is missing; the body starts after
    the 9 header bytes. *)
Definition MSG_HEADER_END : nat := 9.
(** Modelled from the spec: [msg/const.go] is missing;
    [MSG_HEADER_SIZE = 9]. *)
Definition MSG_HEADER_SIZE : Z := 9.
(** Modelled from the spec: [msg/const.go] is missing;
    [PKG_HEADER_SIZE = 4]. *)
Definition PKG_HEADER_SIZE : Z := 4.
(** Modelled from the spec: [msg/const.go] is missing; the CRC is the first
    field of a datagram. *)
Definition PKG_CRC32_BEGIN : nat := 0.

(** Modelled from the spec: [msg/const.go] is missing; first bit of the
    [status] bitfield (transmitted, acked). *)
Definition MSG_STATUS_TRANSMITTED : Z := 1.
(** Modelled from the spec: [msg/const.go] is missing; second bit of the
    [status] bitfield (transmitted, acked). *)
Definition MSG_STATUS_ACKED : Z := 2.

(** Modelled from the spec: [msg/const.go] is missing; the type bytes are
    numbered in the order the spec lists the variants (NORMAL, ACK, PING,
    PONG, FIN). *)
Definition TYPE_NORMAL : byte := x00.
(** Modelled from the spec: [msg/const.go] is missing; see [TYPE_NORMAL]. *)
Definition TYPE_ACK : byte := x01.

(* ===================================================================== *)
(** ** msg: Message                                                      *)
(* ===================================================================== *)

Record Message := mkMessage {
  Type_ : byte;
  Seq : Z;
  Len : Z;
  Body : list byte;
  status : Z;
  transmittedAt : Z;
  ackedAt : Z;
  rtt : Z;
  cache : list byte
}.

Definition set_cache (c : list byte) (m : Message) : Message :=
  mkMessage (Type_ m) (Seq m) (Len m) (Body m) (status m)
            (transmittedAt m) (ackedAt m) (rtt m) c.

(** [New(t, seq, bytes)]; [Len: uint32(len(bytes))]. *)
Definition New (t : byte) (seq : Z) (bytes : list byte) : Message :=
  mkMessage t seq (wrap32 (Z.of_nat (length bytes))) bytes 0 0 0 0 [].

(** The three header stores shared by [Bytes], [PkgBytes] and [HeaderBytes]:
    [m[0] = byte(msg.Type)], [PutUint32(m[1:5], msg.Seq)],
    [PutUint32(m[5:9], msg.Len)].  Each panics when the slice is too short. *)
Definition put_header (msg : Message) (m : list byte) : outcome (list byte) :=
  if decide (length m < MSG_LEN_END)%nat then Panic PanicIndexOutOfRange
  else
    let m := <[MSG_TYPE_BEGIN := Type_ msg]> m in
    let m := copy_at MSG_SEQ_BEGIN (be32 (Seq msg)) m in
    let m := copy_at MSG_LEN_BEGIN (be32 (Len msg)) m in
    Ret m.

(** [Message.Bytes]: returns the cache when it is not empty, else builds
    [type | seq | len | body] and stores it in the cache. *)
Definition Bytes (msg : Message) : outcome (list byte * Message) :=
  if decide (0 < length (cache msg))%nat then Ret (cache msg, msg)
  else
    let result := make (wrap32 (MSG_HEADER_SIZE + Len msg)) in
    match put_header msg result with
    | Panic p => Panic p
    | Ret result =>
        let result := copy_at MSG_HEADER_END (Body msg) result in
        Ret (result, set_cache result msg)
    end.

(** [Message.PkgBytes]: returns the cache when it is not empty, else builds
    [crc32 | type | seq | len | body] and stores it in the cache. *)
Definition PkgBytes (msg : Message) : outcome (list byte * Message) :=
  if decide (0 < length (cache msg))%nat then Ret (cache msg, msg)
  else
    let result := make (wrap32 (PKG_HEADER_SIZE + MSG_HEADER_SIZE + Len msg)) in
    if decide (length result < Z.to_nat PKG_HEADER_SIZE)%nat
    then Panic PanicIndexOutOfRange
    else
      let m := drop (Z.to_nat PKG_HEADER_SIZE) result in
      match put_header msg m with
      | Panic p => Panic p
      | Ret m =>
          let m := copy_at MSG_HEADER_END (Body msg) m in
          let checksum := ChecksumIEEE m in
          let result :=
            copy_at PKG_CRC32_BEGIN (be32 checksum)
                    (take (Z.to_nat PKG_HEADER_SIZE) result ++ m) in
          Ret (result, set_cache result msg)
      end.

(** [Message.TotalSize]. *)
Definition TotalSize (msg : Message) : Z :=
  if decide (0 < length (cache msg))%nat then Z.of_nat (length (cache msg))
  else MSG_HEADER_SIZE + Z.of_nat (length (Body msg)).

Definition s123456789 : list byte :=
  [x31; x32; x33; x34; x35; x36; x37; x38; x39].

(** [NewByHeader].  [MAX_MESSAGE_SIZE] is declared in [msg/const.go], which
    is not among the sources: it is a parameter here.  The header slice is
    taken with capacity equal to its length. *)
Definition NewByHeader (MAX_MESSAGE_SIZE : Z) (header : list byte)
  : outcome Message :=
  match header !! 0%nat with
  | None => Panic PanicIndexOutOfRange
  | Some t =>
      if decide (length header < MSG_SEQ_END)%nat
      then Panic PanicIndexOutOfRange
      else
        match Uint32 (drop MSG_SEQ_BEGIN (take MSG_SEQ_END header)) with
        | Panic p => Panic p
        | Ret seq =>
            if decide (length header < MSG_LEN_END)%nat
            then Panic PanicIndexOutOfRange
            else
              match Uint32 (drop MSG_LEN_BEGIN (take MSG_LEN_END header)) with
              | Panic p => Panic p
              | Ret len =>
                  if decide (len > MAX_MESSAGE_SIZE)
                  then Panic (PanicMsgLen len MAX_MESSAGE_SIZE)
                  else Ret (mkMessage t seq len (make len) 0 0 0 0 [])
              end
        end
  end.

(** [Message.Transmitted] and [Message.Acked]; [now] is [time.Now()]. *)
Definition Transmitted (now : Z) (m : Message) : Message :=
  mkMessage (Type_ m) (Seq m) (Len m) (Body m)
            (Z.lor (status m) MSG_STATUS_TRANSMITTED)
            now (ackedAt m) (rtt m) (cache m).

Definition Acked (now : Z) (m : Message) : Message :=
  mkMessage (Type_ m) (Seq m) (Len m) (Body m)
            (Z.lor (status m) MSG_STATUS_ACKED)
            (transmittedAt m) now (now - transmittedAt m) (cache m).

(* ===================================================================== *)
(** ** msg: UDPMessage and its retransmission timer                      *)
(* ===================================================================== *)

(** A [*time.Timer] made by [time.AfterFunc(rto, f)].  All timers of one
    message run the same closure; they differ in the [rto] it captured. *)
Inductive timer_status := Armed | Expired | Stopped.

Record Timer := mkTimer { timer_rto : Z; timer_st : timer_status }.

(** [UDPMessage]: the embedded [*Message] is kept by value in [base];
    [resendTimer] points into the store of timers ([None] is nil). *)
Record UDPMessage := mkUDPMessage {
  base : Message;
  miss : Z;
  resendTimer : option nat;
  delivered : Z;
  deliveryTime : Z
}.

Definition set_base (b : Message) (m : UDPMessage) : UDPMessage :=
  mkUDPMessage b (miss m) (resendTimer m) (delivered m) (deliveryTime m).
Definition set_miss (n : Z) (m : UDPMessage) : UDPMessage :=
  mkUDPMessage (base m) n (resendTimer m) (delivered m) (deliveryTime m).
Definition set_resendTimer (t : option nat) (m : UDPMessage) : UDPMessage :=
  mkUDPMessage (base m) (miss m) t (delivered m) (deliveryTime m).

Definition NewUDP (t : byte) (seq : Z) (bytes : list byte)
    (delivered deliveredTime : Z) : UDPMessage :=
  mkUDPMessage (New t seq bytes) 0 None delivered deliveredTime.

(** [UDPMessage.Miss] ([atomic.AddUint32(&msg.miss, 1)]) and
    [UDPMessage.ResetMiss]. *)
Definition Miss (m : UDPMessage) : Z * UDPMessage :=
  let n := wrap32 (miss m + 1) in (n, set_miss n m).

Definition ResetMiss (m : UDPMessage) : UDPMessage := set_miss 0 m.

(** [UDPMessage.Transmitted]. *)
Definition UDPMessage_Transmitted (now : Z) (m : UDPMessage) : UDPMessage :=
  set_base (Transmitted now (base m)) m.


(** The test [msg.status&MSG_STATUS_ACKED > 0]. *)
Definition is_acked (m : Message) : Prop :=
  Z.land (status m) MSG_STATUS_ACKED > 0.

Section RTO.
(** The resend closure [fn func() error] acts on the caller's side of the
    world (for the connection: the socket), of type [W]; an [error] is a
    string and [None] is nil. *)
Context {W : Type}.
Variable fn : W -> W * option string.

(** What a timer event sees and changes: the message, the timer store and
    the world of [fn]. *)
Record rto_state := mkRto {
  rto_msg : UDPMessage;
  rto_timers : list Timer;
  rto_world : W
}.

(** [UDPMessage.SetRTO]: [msg.resendTimer = time.AfterFunc(rto, ...)], a
    fresh armed timer; the timer [resendTimer] pointed to before is not
    stopped. *)
Definition SetRTO (rto : Z) (s : rto_state) : rto_state :=
  mkRto (set_resendTimer (Some (length (rto_timers s))) (rto_msg s))
        (rto_timers s ++ [mkTimer rto Armed])
        (rto_world s).

(** The closure handed to [time.AfterFunc] in [SetRTO]. *)
Definition rto_callback (rto : Z) (s : rto_state) : rto_state :=
  if decide (is_acked (base (rto_msg s)))
  then s
  else
    let s1 := mkRto (ResetMiss (rto_msg s)) (rto_timers s) (rto_world s) in
    let '(w, err) := fn (rto_world s1) in
    let s2 := mkRto (rto_msg s1) (rto_timers s1) w in
    match err with
    | None => SetRTO rto s2
    | Some _ => s2
    end.

(** Timer [i] fires: only an armed timer can; it expires and its closure
    runs. *)
Definition fire (i : nat) (s : rto_state) : option rto_state :=
  match rto_timers s !! i with
  | Some (mkTimer rto Armed) =>
      Some (rto_callback rto
              (mkRto (rto_msg s)
                     (<[i := mkTimer rto Expired]> (rto_timers s))
                     (rto_world s)))
  | _ => None
  end.


End RTO.

(* ===================================================================== *)
(** ** conn: PendingMap and UDPPendingMap                                *)
(* ===================================================================== *)

(** A location is a non-nil [*msg.Message]; the heap holds the messages the
    locations point to, so that a message reached from two maps is one
    object. *)
Abbreviation loc := nat (only parsing).
Abbreviation heap := (gmap nat Message) (only parsing).

(** The method call [v.Transmitted()] and [v.Acked()] through a pointer. *)
Definition heap_Transmitted (now : Z) (v : loc) (h : heap) : heap :=
  alter (Transmitted now) v h.
Definition heap_Acked (now : Z) (v : loc) (h : heap) : heap :=
  alter (Acked now) v h.

Module PendingMap.

(** [lastMinuteAcked] and [statistics] belong to the background task
    [analyse] alone and are left out. *)
Record t := mk {
  Pending : gmap Z loc;
  ackedMessages : gmap Z loc
}.

(** [NewPendingMap]. *)
Definition NewPendingMap : t := mk ∅ ∅.

Definition AddMsg (now k : Z) (v : loc) (h : heap) (m : t) : heap * t :=
  let m := mk (<[k := v]> (Pending m)) (ackedMessages m) in
  (heap_Transmitted now v h, m).

Definition DelMsg (now k : Z) (h : heap) (m : t) : heap * t * bool :=
  match Pending m !! k with
  | None => (h, m, false)
  | Some v =>
      let h := heap_Acked now v h in
      let m := mk (Pending m) (<[k := v]> (ackedMessages m)) in
      let m := mk (delete k (Pending m)) (ackedMessages m) in
      (h, m, true)
  end.

End PendingMap.

Module UDPPendingMap.

(** [UDPPendingMap] embeds [*PendingMap]; [waitBits] is a byte. *)
Record t := mk {
  pm : PendingMap.t;
  waitBits : Z
}.

Definition Pending (m : t) : gmap Z loc := PendingMap.Pending (pm m).
Definition ackedMessages (m : t) : gmap Z loc :=
  PendingMap.ackedMessages (pm m).

(** [NewUDPPendingMap]. *)
Definition NewUDPPendingMap : t := mk PendingMap.NewPendingMap 0.

(** The test [m.waitBits&(1<<i) > 0]. *)
Definition slot_taken (wb i : Z) : bool := 0 <? Z.land wb (Z.shiftl 1 i).

(** [AddMsg].  [None]: the slot is taken and the caller is parked in
    [m.waitCond.Wait()], the map unchanged; it tests the slot again whenever
    it is woken. *)
Definition AddMsg (now k : Z) (v : loc) (h : heap) (m : t)
  : option (heap * t) :=
  let i := k mod 8 in
  if slot_taken (waitBits m) i then None
  else
    let p := PendingMap.mk (<[k := v]> (Pending m)) (ackedMessages m) in
    let m := mk p (Z.lor (waitBits m) (Z.shiftl 1 i)) in
    Some (heap_Transmitted now v h, m).

(** The loop [for n := 7; n > 1; n--] of [DelMsgAndGetLossMsgs], over the
    values [n] takes. *)
Fixpoint loss_scan (pending : gmap Z loc) (wb k : Z) (ns : list Z)
    (loss : list loc) : outcome (list loc) :=
  match ns with
  | [] => Ret loss
  | n :: ns =>
      let pk := wrap32 (k - n) in
      if slot_taken wb (pk mod 8) then
        match pending !! pk with
        | None => Panic (PanicStr "udp pending map !ok")
        | Some l => loss_scan pending wb k ns (loss ++ [l])
        end
      else loss_scan pending wb k ns loss
  end.

Definition scanned : list Z := [7; 6; 5; 4; 3; 2].

(** [DelMsgAndGetLossMsgs].  The state is returned in both cases: a panic
    happens after [k] was deleted and its bit cleared (and with the mutex
    still held). *)
Definition DelMsgAndGetLossMsgs (now k : Z) (h : heap) (m : t)
  : heap * t * outcome (bool * list loc) :=
  match Pending m !! k with
  | None => (h, m, Ret (false, []))
  | Some v =>
      let pending := delete k (Pending m) in
      let i := k mod 8 in
      let wb := Z.ldiff (waitBits m) (Z.shiftl 1 i) in
      let m := mk (PendingMap.mk pending (ackedMessages m)) wb in
      let prev :=
        Z.land (Z.lxor 255 (Z.shiftl 1 i))
               (Z.lxor 255 (Z.shiftl 1 (wrap32 (k - 1) mod 8))) in
      let scan :=
        if 0 <? Z.land wb prev
        then loss_scan pending wb k scanned []
        else Ret [] in
      match scan with
      | Panic p => (h, m, Panic p)
      | Ret loss =>
          let h := heap_Acked now v h in
          let m := mk (PendingMap.mk pending (<[k := v]> (ackedMessages m)))
                      wb in
          (h, m, Ret (true, loss))
      end
  end.

End UDPPendingMap.

(* ===================================================================== *)
(** ** conn: constants                                                   *)
(* ===================================================================== *)

(** Untyped Go constants: exact integers, [/] truncates. *)
Definition MTU : Z := 1500.
Definition BW_SCALE : Z := 24.
Definition BW_UNIT : Z := Z.shiftl 1 BW_SCALE.
Definition BBR_SCALE : Z := 8.
Definition BBR_UNIT : Z := Z.shiftl 1 BBR_SCALE.

Definition highGain : Z := BBR_UNIT * 2885 ÷ 1000 + 1.
Definition drainGain : Z := BBR_UNIT * 1000 ÷ 2885.
Definition cwndGain : Z := BBR_UNIT * 2.
Definition fullBwThresh : Z := BBR_UNIT * 5 ÷ 4.
Definition fullBwCnt : Z := 3.

Definition pacingGain : list Z :=
  [ BBR_UNIT * 5 ÷ 4;
    BBR_UNIT * 3 ÷ 4;
    BBR_UNIT; BBR_UNIT; BBR_UNIT;
    BBR_UNIT; BBR_UNIT; BBR_UNIT ].
Definition gainCycleLength : Z := Z.of_nat (length pacingGain).
(** [roundTripCount(..)] is a conversion to an integer type. *)
Definition bandwidthWindowSize : Z := gainCycleLength + 2.

Definition MAX_UDP_PACKAGE_SIZE : Z := 1024.

(* ===================================================================== *)
(** ** conn: UDPConn                                                     *)
(* ===================================================================== *)

(** Modelled from the spec: the struct [ConnCommonFields] that [UDPConn]
    embeds is not among the sources.  Of its fields the send counter [seq]
    and the pending map are kept, the latter in its UDP variant (send path of
    the spec: [pending.add] may block on the slot).  [UdpConn] is the socket,
    kept as the datagrams handed to [WriteToUDP], oldest first. *)
Record UDPConn := mkUDPConn {
  seq : Z;
  pending : UDPPendingMap.t;
  msgs : heap;
  UdpConn : list (list byte)
}.

(** [NewUDPConn]. *)
Definition NewUDPConn : UDPConn :=
  mkUDPConn 0 UDPPendingMap.NewUDPPendingMap ∅ [].

(** [UDPConn.ReadLoop]. *)
Definition ReadLoop (c : UDPConn) : outcome unit :=
  Panic (PanicStr "UDPConn unimplemented ReadLoop").

(** [UDPConn.WriteBytes]; [err] is what [WriteToUDP] answers this time. *)
Definition WriteBytes (err : option string) (bytes : list byte) (c : UDPConn)
  : UDPConn * option string :=
  (mkUDPConn (seq c) (pending c) (msgs c) (UdpConn c ++ [bytes]), err).

Inductive write_result :=
| WriteBlocked (c : UDPConn)   (* parked in AddMsg, seq already taken *)
| WritePanic (p : panic_value)
| WriteDone (c : UDPConn) (err : option string).

(** [UDPConn.Write] from [c.AddMsg(s, m)] on. *)
Definition Write_from_AddMsg (now : Z) (err : option string) (s : Z) (m : loc)
    (c : UDPConn) : write_result :=
  match UDPPendingMap.AddMsg now s m (msgs c) (pending c) with
  | None => WriteBlocked c
  | Some (h, p) =>
      match h !! m with
      | None => WritePanic PanicNilPointer
      | Some msg =>
          match Bytes msg with
          | Panic q => WritePanic q
          | Ret (b, msg) =>
              let c := mkUDPConn (seq c) p (<[m := msg]> h) (UdpConn c) in
              let '(c, e) := WriteBytes err b c in
              WriteDone c e
          end
      end
  end.

(** [UDPConn.Write]: [atomic.AddUint32(&c.seq, 1)], [msg.New] (a fresh
    object), then the rest. *)
Definition Write (now : Z) (err : option string) (bytes : list byte)
    (c : UDPConn) : write_result :=
  let s := wrap32 (seq c + 1) in
  let m := fresh (dom (msgs c)) in
  let c := mkUDPConn s (pending c)
                     (<[m := New TYPE_NORMAL s bytes]> (msgs c)) (UdpConn c) in
  Write_from_AddMsg now err s m c.

(** [UDPConn.Ack]. *)
Definition Ack (err : option string) (seq : Z) (c : UDPConn)
  : UDPConn * option string :=
  let resp := make (Z.of_nat MSG_SEQ_END) in
  let resp := <[MSG_TYPE_BEGIN := TYPE_ACK]> resp in
  let resp := copy_at MSG_SEQ_BEGIN (be32 seq) resp in
  WriteBytes err resp c.

(* ===================================================================== *)
(** ** The receive path                                                  *)
(* ===================================================================== *)

Module Receiver.

(** Modelled from the spec: the listener's read loop, which feeds the
    inbound channel of a connection, is not among the sources
    ([UDPConn.ReadLoop] only panics).  This is step 3 of the receive path
    of the spec, for a decoded NORMAL message: ack it; deliver it when
    [seq = recvNextExpected], advance and drain the contiguous seqs of
    [reorderBuffer]; buffer it when [seq > recvNextExpected]; drop it as a
    duplicate otherwise.  [inbound] is what was put on the inbound channel,
    oldest first, [acks] the seqs acked. *)
Record t := mk {
  recvNextExpected : Z;
  reorderBuffer : gmap Z (list byte);
  inbound : list (list byte);
  acks : list Z
}.







End Receiver.

(* ===================================================================== *)
(** ** Wire layouts, as the properties below name them                   *)
(* ===================================================================== *)

(** [| type (1) | seq (4) | len (4) | body |]. *)
Definition msg_layout (t : byte) (seq len : Z) (body : list byte) : list byte :=
  t :: be32 seq ++ be32 len ++ body.

(** [| crc32 (4, big-endian, over the remainder) | type | seq | len | body |]. *)
Definition pkg_layout (t : byte) (seq len : Z) (body : list byte) : list byte :=
  be32 (ChecksumIEEE (msg_layout t seq len body)) ++ msg_layout t seq len body.

(** A datagram framed with a CRC, for some type, seq and body. *)
Definition crc_framed (d : list byte) : Prop :=
  exists t seq body, d = pkg_layout t seq (Z.of_nat (length body)) body.

(** The [Len] bytes that [copy] leaves after the header of a buffer of
    [MSG_HEADER_SIZE + Len] zero bytes: the body, cut or padded to [Len]. *)
Definition body_field (msg : Message) : list byte :=
  take (Z.to_nat (Len msg)) (Body msg)
  ++ replicate (Z.to_nat (Len msg) - length (Body msg)) x00.

(** A sequence of calls of the two encoders on one message; a call that
    panics leaves the message as it was. *)
Inductive enc_call := CallBytes | CallPkgBytes.

Definition enc_run (c : enc_call) (m : Message) : outcome (list byte * Message) :=
  match c with
  | CallBytes => Bytes m
  | CallPkgBytes => PkgBytes m
  end.

Fixpoint enc_calls (cs : list enc_call) (m : Message) : Message :=
  match cs with
  | [] => m
  | c :: cs =>
      match enc_run c m with
      | Ret (_, m') => enc_calls cs m'
      | Panic _ => enc_calls cs m
      end
  end.


(* ===================================================================== *)
(** ** The sliding window of the UDP pending map                         *)
(* ===================================================================== *)

(** At most one pending seq per slot [seq mod 8]. *)
Definition one_per_slot (m : UDPPendingMap.t) : Prop :=
  forall p q,
    p ∈ dom (UDPPendingMap.Pending m) -> q ∈ dom (UDPPendingMap.Pending m) ->
    p mod 8 = q mod 8 -> p = q.

(** A slot is occupied when some pending seq falls into it. *)
Definition occupied (m : UDPPendingMap.t) (i : Z) : Prop :=
  exists p, p ∈ dom (UDPPendingMap.Pending m) /\ p mod 8 = i.

(** [waitBits] has exactly the bits of the occupied slots. *)
Definition mirrors (m : UDPPendingMap.t) : Prop :=
  forall i, 0 <= i < 8 ->
    (UDPPendingMap.slot_taken (UDPPendingMap.waitBits m) i = true
     <-> occupied m i).

(** Every pending seq other than [k] is one of the 7 seqs before [k]. *)
Definition newest (m : UDPPendingMap.t) (k : Z) : Prop :=
  forall p, p ∈ dom (UDPPendingMap.Pending m) ->
    p = k \/ exists j, 1 <= j <= 7 /\ p = wrap32 (k - j).

(** [loss] holds exactly the messages pending under the seqs
    [k - 7 .. k - first]. *)
Definition reports_preceding (first k : Z) (pending : gmap Z loc)
    (loss : list loc) : Prop :=
  forall l, l ∈ loss <->
    exists j, first <= j <= 7 /\ pending !! wrap32 (k - j) = Some l.

(** Operations on one UDP pending map, each atomic under the mutex of the
    map: what [AddMsg] and [DelMsgAndGetLossMsgs] do after [m.Unlock()]
    ([v.Transmitted()], [v.Acked()], [ackedMessages]) touches neither
    [Pending] nor [waitBits].  An [AddMsg] that finds its slot taken leaves
    the map as it is (its caller waits; its retry is a later [OpAdd]).  A
    panic in [DelMsgAndGetLossMsgs] ends the run. *)
Inductive op :=
| OpAdd (now k : Z) (v : loc)
| OpDel (now k : Z).

Inductive run_result :=
| Running (h : heap) (m : UDPPendingMap.t)
| Crashed (h : heap) (m : UDPPendingMap.t) (p : panic_value).

Fixpoint run (tr : list op) (h : heap) (m : UDPPendingMap.t) : run_result :=
  match tr with
  | [] => Running h m
  | OpAdd now k v :: tr =>
      match UDPPendingMap.AddMsg now k v h m with
      | Some (h', m') => run tr h' m'
      | None => run tr h m
      end
  | OpDel now k :: tr =>
      match UDPPendingMap.DelMsgAndGetLossMsgs now k h m with
      | (h', m', Ret _) => run tr h' m'
      | (h', m', Panic p) => Crashed h' m' p
      end
  end.

Definition map_of (r : run_result) : UDPPendingMap.t :=
  match r with Running _ m | Crashed _ m _ => m end.

Definition heap_of (r : run_result) : heap :=
  match r with Running h _ | Crashed h _ _ => h end.

(* ===================================================================== *)
(** ** Invariants                                                        *)
(* ===================================================================== *)

(** The two invariants of the window, kept by every operation. *)
Definition window_inv (m : UDPPendingMap.t) : Prop :=
  one_per_slot m /\ mirrors m.



(* ===================================================================== *)
(** ** Sample data                                                       *)
(* ===================================================================== *)

(** A resend closure as a connection would pass it: it writes the bytes [b]
    to the socket, which is the list of datagrams written so far. *)
Definition resend_log (b : list byte)
  : list (list byte) -> list (list byte) * option string :=
  fun w => (w ++ [b], None).

Definition resend_fails (e : string) (b : list byte)
  : list (list byte) -> list (list byte) * option string :=
  fun w => (w ++ [b], Some e).

(** Seq 3 with body "a", transmitted at time 5, missed twice, its RTO timer
    armed with 200. *)
Definition udp_msg3 : UDPMessage :=
  (Miss (Miss (UDPMessage_Transmitted 5 (NewUDP TYPE_NORMAL 3 [x61] 0 0))).2).2.

Definition rto3 : rto_state (W := list (list byte)) :=
  SetRTO 200 (mkRto udp_msg3 [] []).

(** The same after [Message.Acked] was called through the embedded
    [*Message] at time 9, as the pending maps do: the timer stays armed. *)
Definition rto3_acked : rto_state (W := list (list byte)) :=
  mkRto (set_base (Acked 9 (base udp_msg3)) (rto_msg rto3))
        (rto_timers rto3) (rto_world rto3).

(** A header with [len = 1025]. *)
Definition header_1025 : list byte :=
  [x00; x00; x00; x00; x01; x00; x00; x04; x01].

(** Seqs 3 and 5 in flight (1, 2 and 4 were acked): the loss scenario of the
    spec, where the ack of seq 5 finds seq 3 still pending. *)
Definition heap35 : heap :=
  <[1%nat := New TYPE_NORMAL 3 [x63]]> (<[2%nat := New TYPE_NORMAL 5 [x65]]> ∅).

Definition trace35 : list op := [OpAdd 10 3 1%nat; OpAdd 20 5 2%nat].

Definition udp35 : UDPPendingMap.t :=
  map_of (run trace35 heap35 UDPPendingMap.NewUDPPendingMap).

(** Seqs 1 and 2 in flight, added in this order to a new map. *)
Definition heap12 : heap :=
  <[1%nat := New TYPE_NORMAL 1 [x61]]> (<[2%nat := New TYPE_NORMAL 2 [x62]]> ∅).

Definition trace12 : list op := [OpAdd 10 1 1%nat; OpAdd 20 2 2%nat].

Definition udp12 : UDPPendingMap.t :=
  map_of (run trace12 heap12 UDPPendingMap.NewUDPPendingMap).

(** Seq 1 in flight and a ninth send, seq 9, waiting for its slot. *)
Definition heap19 : heap :=
  <[1%nat := New TYPE_NORMAL 1 [x61]]> (<[2%nat := New TYPE_NORMAL 9 [x69]]> ∅).

Definition trace19 : list op := [OpAdd 10 1 1%nat; OpAdd 20 9 2%nat].



(* ===================================================================== *)
(** ** msg: the remaining methods of Message                             *)
(* ===================================================================== *)

(** [Message.HeaderBytes]: a fresh buffer of [MSG_HEADER_SIZE] bytes with the
    three header stores. *)
Definition HeaderBytes (msg : Message) : outcome (list byte) :=
  put_header msg (make MSG_HEADER_SIZE).

(** [Message.Status] and [Message.GetRTT]. *)
Definition Status (msg : Message) : Z := status msg.
Definition GetRTT (msg : Message) : Z := rtt msg.

(** A field of type [uint32]. *)
Definition is_uint32 (z : Z) : Prop := 0 <= z < 2 ^ 32.

(* ===================================================================== *)
(** ** Runs of timer events                                              *)
(* ===================================================================== *)

Section RTO_runs.
Context {W : Type}.
Variable fn : W -> W * option string.


(** The timer [msg.resendTimer] points to fires. *)
Definition fire_current (s : rto_state) : option rto_state :=
  match resendTimer (rto_msg s) with
  | Some i => fire fn i s
  | None => None
  end.

(** It fires [n] times in a row. *)
Fixpoint fire_current_n (n : nat) (s : rto_state) : option rto_state :=
  match n with
  | O => Some s
  | S n =>
      match fire_current s with
      | Some s' => fire_current_n n s'
      | None => None
      end
  end.

End RTO_runs.

(* ===================================================================== *)
(** ** conn: the remaining methods of UDPConn                            *)
(* ===================================================================== *)

(** How [UDPConn.WriteLoop] ends or stops.  [LoopReturned c err called]:
    it returned [err]; [called] is the argument of the deferred
    [c.SetStatusToError], when the deferred function called it (the method
    itself belongs to [ConnCommonFields], which is not among the
    sources). *)
Inductive loop_result :=
| LoopWaiting (c : UDPConn)     (* blocked in [<-c.Out], channel still open *)
| LoopParked (c : UDPConn)      (* a Write is parked in AddMsg *)
| LoopPanic (p : panic_value)
| LoopReturned (c : UDPConn) (err : option string) (called : option string).

(** [UDPConn.WriteLoop].  [out] holds what is received from [c.Out], in
    order, each message with the time and the socket's answer of its
    [Write]; [closed] tells whether the channel is closed after them. *)
Fixpoint WriteLoop (out : list (Z * option string * list byte))
    (closed : bool) (c : UDPConn) : loop_result :=
  match out with
  | [] => if closed then LoopReturned c None None else LoopWaiting c
  | (now, e, m) :: out =>
      match Write now e m c with
      | WriteBlocked c' => LoopParked c'
      | WritePanic p => LoopPanic p
      | WriteDone c' None => WriteLoop out closed c'
      | WriteDone c' (Some err) => LoopReturned c' (Some err) (Some err)
      end
  end.

(** The datagrams of [Write] for the bodies [bodies], on a connection whose
    send counter is [s0]. *)
Definition datagrams (s0 : Z) (bodies : list (list byte)) : list (list byte) :=
  imap (fun i b => msg_layout TYPE_NORMAL (wrap32 (s0 + 1 + Z.of_nat i))
                              (Z.of_nat (length b)) b) bodies.

(** Between [c] and [c'] exactly the messages [sent] were written, in
    order. *)
Definition written (c c' : UDPConn)
    (sent : list (Z * option string * list byte)) : Prop :=
  UdpConn c' = UdpConn c ++ datagrams (seq c) (snd <$> sent)
  /\ seq c' = wrap32 (seq c + Z.of_nat (length sent)).

Definition no_error (x : Z * option string * list byte) : Prop :=
  x.1.2 = None.

Definition fits (x : Z * option string * list byte) : Prop :=
  Z.of_nat (length x.2) <= 2 ^ 32 - 10.

(** Three messages on the outbound channel; the socket fails on the
    second. *)
Definition out3 : list (Z * option string * list byte) :=
  [(1, None, [x61]); (2, Some "network is unreachable", [x62]);
   (3, None, [x63])].

(* ===================================================================== *)
(** ** conn: PendingMap.analyse                                          *)
(* ===================================================================== *)

(** [int] taken as 64 bits wide, with its wrap-around. *)
Definition wrap_int (z : Z) : Z := (z + 2 ^ 63) mod 2 ^ 64 - 2 ^ 63.

(** The arguments [analyse] hands to [fmt.Sprintf] for [m.statistics]:
    "sent: %d bytes, latency: max %d ns, min %d ns, avg %s ns, count %s". *)
Record stats := mkStats {
  stat_bytesSent : Z;
  stat_max : Z;
  stat_min : Z;
  stat_avg : Z;
  stat_count : Z
}.

Section Analyse.
(** [v.Latency.Nanoseconds()]: the field [Latency] is not declared in the
    [Message] of [msg/msg.go] among the sources; it is a parameter here. *)
Variable Latency : Message -> Z.

(** [if max < latency { max = latency }]. *)
Definition max_step (max latency : Z) : Z :=
  if max <? latency then latency else max.

(** [if min == 0 || min > latency { min = latency }]. *)
Definition min_step (min latency : Z) : Z :=
  if (min =? 0) || (min >? latency) then latency else min.

(** [bytesSent += v.TotalSize()]. *)
Definition bytes_step (bytesSent size : Z) : Z := wrap_int (bytesSent + size).

(** One round of the loop [for _, v := range m.lastMinuteAcked], on the
    variables [max], [min], [sum] (a [big.Int]) and [bytesSent]. *)
Definition stats_step (acc : Z * Z * Z * Z) (v : Message) : Z * Z * Z * Z :=
  let '(max, min, sum, bytesSent) := acc in
  let latency := Latency v in
  (max_step max latency, min_step min latency, sum + latency,
   bytes_step bytesSent (TotalSize v)).

(** The loop and what follows it; [visit] holds the messages of
    [m.lastMinuteAcked] in the order [range] yields them.  [big.Int.Div] by
    the positive count is the floor division. *)
Definition stats_of (visit : list Message) : stats :=
  let '(max, min, sum, bytesSent) := fold_left stats_step visit (0, 0, 0, 0) in
  let n := Z.of_nat (length visit) in
  mkStats bytesSent max min (sum / n) n.

(** What one tick of [analyse] works on: the map, [lastMinuteAcked] and
    [statistics] ([None] for the string never set). *)
Record analysed := mkAnalysed {
  an_map : PendingMap.t;
  lastMinuteAcked : gmap Z loc;
  statistics : option stats
}.

(** One tick of the ticker in [analyse]: [ackedMessages] becomes
    [lastMinuteAcked] and is replaced by a new empty map; with nothing in
    [lastMinuteAcked] the loop continues, else the statistics are set. *)
Definition analyse_tick (visit : list Message) (a : analysed) : analysed :=
  let last := PendingMap.ackedMessages (an_map a) in
  let m := PendingMap.mk (PendingMap.Pending (an_map a)) ∅ in
  if decide (size last < 1)%nat then mkAnalysed m last (statistics a)
  else mkAnalysed m last (Some (stats_of visit)).

End Analyse.

(** The sum of a list of integers. *)
Definition sumZ (l : list Z) : Z := foldr Z.add 0 l.

(** Three acked messages with latencies 30, 10 and 20 (kept in [rtt]). *)
Definition acked3 : list Message :=
  [ Acked 30 (Transmitted 0 (New TYPE_NORMAL 1 [x61]));
    Acked 10 (Transmitted 0 (New TYPE_NORMAL 2 [x62; x62]));
    Acked 20 (Transmitted 0 (New TYPE_NORMAL 3 [x63])) ].
(* ===================================================================== *)
(** * Properties                                                         *)
(* ===================================================================== *)

(** ** The codec *)

Example ChecksumIEEE_check : ChecksumIEEE s123456789 = 0xCBF43926.
Proof. vm_compute. reflexivity. Qed.

Example Bytes_ex :
  Bytes (New TYPE_NORMAL 1 [x61; x62]) =
  Ret (msg_layout x00 1 2 [x61; x62],
       set_cache (msg_layout x00 1 2 [x61; x62]) (New TYPE_NORMAL 1 [x61; x62])).
Proof. vm_compute. reflexivity. Qed.

Lemma length_be32 v : length (be32 v) = 4%nat.
Proof. reflexivity. Qed.

Lemma length_body_field msg :
  0 <= Len msg -> length (body_field msg) = Z.to_nat (Len msg).
Proof.
  intros _. unfold body_field.
  rewrite length_app, length_take, length_replicate. lia.
Qed.

Lemma body_field_id msg :
  Len msg = Z.of_nat (length (Body msg)) -> body_field msg = Body msg.
Proof.
  intros E. unfold body_field. rewrite E, Nat2Z.id, Nat.sub_diag.
  rewrite firstn_all. simpl. apply app_nil_r.
Qed.

Lemma wrap32_small z : 0 <= z < 2 ^ 32 -> wrap32 z = z.
Proof. intros H. unfold wrap32. apply Z.mod_small. lia. Qed.

(** The header stores and the body copy on a zeroed buffer of [9 + n]
    bytes. *)
Lemma put_header_zeroed msg (n : nat) :
  put_header msg (replicate (9 + n) x00) =
  Ret (Type_ msg :: be32 (Seq msg) ++ be32 (Len msg) ++ replicate n x00).
Proof.
  unfold put_header. simpl length. rewrite length_replicate.
  destruct (decide _) as [H|_]; [unfold MSG_LEN_END in H; lia|].
  unfold copy_at, MSG_LEN_BEGIN, MSG_SEQ_BEGIN, MSG_TYPE_BEGIN. simpl.
  rewrite take_nil. reflexivity.
Qed.

Lemma copy_body_zeroed (hd body : list byte) (n : nat) :
  length hd = 9%nat ->
  copy_at MSG_HEADER_END body (hd ++ replicate n x00) =
  hd ++ take n body ++ replicate (n - length body) x00.
Proof.
  intros Hhd. unfold copy_at, MSG_HEADER_END.
  rewrite take_app_length' by done.
  rewrite length_app, length_replicate, Hhd.
  replace (9 + n - 9)%nat with n by lia.
  rewrite drop_app_ge by lia.
  rewrite drop_replicate. do 3 f_equal. lia.
Qed.

Lemma Bytes_fresh msg :
  cache msg = [] -> 0 <= Len msg <= 2 ^ 32 - 10 ->
  Bytes msg =
  Ret (msg_layout (Type_ msg) (Seq msg) (Len msg) (body_field msg),
       set_cache (msg_layout (Type_ msg) (Seq msg) (Len msg) (body_field msg))
                 msg).
Proof.
  intros Hc HL. unfold Bytes. rewrite Hc. simpl length.
  destruct (decide _) as [H|_]; [lia|].
  unfold make, MSG_HEADER_SIZE. rewrite wrap32_small by lia.
  replace (Z.to_nat (9 + Len msg)) with (9 + Z.to_nat (Len msg))%nat by lia.
  rewrite put_header_zeroed.
  change (Type_ msg :: be32 (Seq msg) ++ be32 (Len msg)
            ++ replicate (Z.to_nat (Len msg)) x00)
    with ((Type_ msg :: be32 (Seq msg) ++ be32 (Len msg))
            ++ replicate (Z.to_nat (Len msg)) x00).
  rewrite copy_body_zeroed by reflexivity.
  reflexivity.
Qed.

Lemma PkgBytes_fresh msg :
  cache msg = [] -> 0 <= Len msg <= 2 ^ 32 - 14 ->
  PkgBytes msg =
  Ret (pkg_layout (Type_ msg) (Seq msg) (Len msg) (body_field msg),
       set_cache (pkg_layout (Type_ msg) (Seq msg) (Len msg) (body_field msg))
                 msg).
Proof.
  intros Hc HL. unfold PkgBytes. rewrite Hc. simpl length.
  destruct (decide _) as [H|_]; [lia|].
  unfold make, MSG_HEADER_SIZE, PKG_HEADER_SIZE. rewrite wrap32_small by lia.
  replace (Z.to_nat (4 + 9 + Len msg))
    with (4 + (9 + Z.to_nat (Len msg)))%nat by lia.
  change (Z.to_nat 4) with 4%nat.
  destruct (decide _) as [H|_]; [simpl in H; lia|].
  change (drop 4 (replicate (4 + (9 + Z.to_nat (Len msg))) x00))
    with (replicate (9 + Z.to_nat (Len msg)) x00).
  rewrite put_header_zeroed.
  change (Type_ msg :: be32 (Seq msg) ++ be32 (Len msg)
            ++ replicate (Z.to_nat (Len msg)) x00)
    with ((Type_ msg :: be32 (Seq msg) ++ be32 (Len msg))
            ++ replicate (Z.to_nat (Len msg)) x00).
  rewrite copy_body_zeroed by reflexivity.
  reflexivity.
Qed.

Lemma Bytes_cached msg :
  (0 < length (cache msg))%nat -> Bytes msg = Ret (cache msg, msg).
Proof. intros H. unfold Bytes. destruct (decide _); [done | lia]. Qed.

Lemma PkgBytes_cached msg :
  (0 < length (cache msg))%nat -> PkgBytes msg = Ret (cache msg, msg).
Proof. intros H. unfold PkgBytes. destruct (decide _); [done | lia]. Qed.

Lemma enc_calls_cached cs msg :
  (0 < length (cache msg))%nat -> enc_calls cs msg = msg.
Proof.
  intros H. induction cs as [|c cs IH]; [done|].
  simpl. destruct c; simpl;
    [rewrite Bytes_cached by done | rewrite PkgBytes_cached by done]; exact IH.
Qed.

(** C10.  On a message whose cache is empty, [Bytes] stores the header-only
    encoding of [9 + Len] bytes in the cache; after that, whatever encoder
    calls follow, [PkgBytes] returns that same buffer, without the four CRC
    bytes, and [TotalSize] is [9 + Len].  Had [PkgBytes] been called first,
    both would be the CRC-framed buffer of [13 + Len] bytes. *)
Theorem Bytes_first_fixes_PkgBytes (msg : Message) (cs : list enc_call) :
  cache msg = [] -> 0 <= Len msg <= 2 ^ 32 - 14 ->
  let hdr := msg_layout (Type_ msg) (Seq msg) (Len msg) (body_field msg) in
  let pkg := pkg_layout (Type_ msg) (Seq msg) (Len msg) (body_field msg) in
  exists m1 m2,
    (Bytes msg = Ret (hdr, m1) /\ cache m1 = hdr
     /\ Z.of_nat (length hdr) = 9 + Len msg
     /\ PkgBytes (enc_calls cs m1) = Ret (hdr, m1)
     /\ TotalSize (enc_calls cs m1) = 9 + Len msg)
    /\ (PkgBytes msg = Ret (pkg, m2) /\ cache m2 = pkg
        /\ pkg = be32 (ChecksumIEEE hdr) ++ hdr
        /\ PkgBytes (enc_calls cs m2) = Ret (pkg, m2)
        /\ TotalSize (enc_calls cs m2) = 13 + Len msg).
Proof.
  intros Hc HL hdr pkg.
  assert (Hlen : Z.of_nat (length hdr) = 9 + Len msg).
  { unfold hdr, msg_layout.
    rewrite length_cons, !length_app, !length_be32, length_body_field by lia.
    lia. }
  assert (Hlenp : Z.of_nat (length pkg) = 13 + Len msg).
  { unfold pkg, pkg_layout. fold hdr. rewrite length_app, length_be32. lia. }
  exists (set_cache hdr msg), (set_cache pkg msg).
  split.
  - assert (Hpos : (0 < length (cache (set_cache hdr msg)))%nat)
      by (change (cache (set_cache hdr msg)) with hdr; lia).
    rewrite enc_calls_cached by exact Hpos.
    split; [apply Bytes_fresh; [done | lia] |].
    split; [reflexivity |].
    split; [exact Hlen |].
    split; [now rewrite PkgBytes_cached by exact Hpos |].
    unfold TotalSize. destruct (decide _); [exact Hlen | lia].
  - assert (Hpos : (0 < length (cache (set_cache pkg msg)))%nat)
      by (change (cache (set_cache pkg msg)) with pkg; lia).
    rewrite enc_calls_cached by exact Hpos.
    split; [apply PkgBytes_fresh; done |].
    split; [reflexivity |].
    split; [reflexivity |].
    split; [now rewrite PkgBytes_cached by exact Hpos |].
    unfold TotalSize. destruct (decide _); [exact Hlenp | lia].
Qed.

Lemma Bytes_first_fixes_PkgBytes_witness :
  let msg := New TYPE_NORMAL 1 [x61; x62] in
  (cache msg = [] /\ 0 <= Len msg <= 2 ^ 32 - 14)
  /\ exists m1 m2,
      (Bytes msg = Ret (msg_layout x00 1 2 [x61; x62], m1)
       /\ cache m1 = msg_layout x00 1 2 [x61; x62]
       /\ Z.of_nat (length (msg_layout x00 1 2 [x61; x62])) = 9 + 2
       /\ PkgBytes (enc_calls [CallPkgBytes; CallBytes] m1)
          = Ret (msg_layout x00 1 2 [x61; x62], m1)
       /\ TotalSize (enc_calls [CallPkgBytes; CallBytes] m1) = 9 + 2)
      /\ (PkgBytes msg = Ret (pkg_layout x00 1 2 [x61; x62], m2)
          /\ cache m2 = pkg_layout x00 1 2 [x61; x62]
          /\ pkg_layout x00 1 2 [x61; x62]
             = be32 (ChecksumIEEE (msg_layout x00 1 2 [x61; x62]))
               ++ msg_layout x00 1 2 [x61; x62]
          /\ PkgBytes (enc_calls [CallPkgBytes; CallBytes] m2)
             = Ret (pkg_layout x00 1 2 [x61; x62], m2)
          /\ TotalSize (enc_calls [CallPkgBytes; CallBytes] m2) = 13 + 2).
Proof.
  split; [split; [reflexivity | vm_compute; split; discriminate] |].
  apply (Bytes_first_fixes_PkgBytes (New TYPE_NORMAL 1 [x61; x62])
           [CallPkgBytes; CallBytes]).
  - reflexivity.
  - vm_compute. split; discriminate.
Defined.

(** ** The datagrams of the UDP connection *)

Lemma length_msg_layout t s l body :
  length (msg_layout t s l body) = (9 + length body)%nat.
Proof.
  unfold msg_layout. rewrite length_cons, !length_app, !length_be32. lia.
Qed.

Lemma length_pkg_layout t s l body :
  length (pkg_layout t s l body) = (13 + length body)%nat.
Proof.
  unfold pkg_layout. rewrite length_app, length_be32, length_msg_layout. lia.
Qed.

Lemma crc_framed_length d : crc_framed d -> (13 <= length d)%nat.
Proof.
  intros (t & s & body & ->). rewrite length_pkg_layout. lia.
Qed.

Lemma Bytes_New now t s body :
  Z.of_nat (length body) <= 2 ^ 32 - 10 ->
  let b := msg_layout t s (Z.of_nat (length body)) body in
  Bytes (Transmitted now (New t s body)) =
  Ret (b, set_cache b (Transmitted now (New t s body))).
Proof.
  intros Hl b.
  assert (HL : Len (Transmitted now (New t s body)) = Z.of_nat (length body))
    by (simpl; apply wrap32_small; lia).
  rewrite Bytes_fresh; [| reflexivity | rewrite HL; lia].
  rewrite (body_field_id _ HL), HL. reflexivity.
Qed.

Lemma Write_datagram now err body c c' e :
  Z.of_nat (length body) <= 2 ^ 32 - 10 ->
  Write now err body c = WriteDone c' e ->
  UdpConn c' =
    UdpConn c ++ [msg_layout TYPE_NORMAL (wrap32 (seq c + 1))
                             (Z.of_nat (length body)) body]
  /\ seq c' = wrap32 (seq c + 1) /\ e = err.
Proof.
  intros Hl. unfold Write, Write_from_AddMsg, UDPPendingMap.AddMsg.
  cbn [seq pending msgs UdpConn].
  destruct (UDPPendingMap.slot_taken _ _); [discriminate|].
  unfold heap_Transmitted. rewrite lookup_alter_eq, lookup_insert_eq.
  cbn [fmap option_fmap option_map].
  rewrite Bytes_New by exact Hl.
  unfold WriteBytes. cbn [seq pending msgs UdpConn].
  intros [= <- <-]. cbn [seq UdpConn]. done.
Qed.

Lemma Ack_datagram err s c :
  Ack err s c =
  (mkUDPConn (seq c) (pending c) (msgs c) (UdpConn c ++ [TYPE_ACK :: be32 s]),
   err).
Proof. reflexivity. Qed.

(** C3, as the code has it.  [Message.PkgBytes] gives the framing
    [| crc32 | type | seq | len | body |], the CRC-32 (IEEE) taken over the
    bytes after it; but a [Write] that completes hands the socket the
    message's [Bytes], [| type | seq | len | body |] with no CRC before it,
    and [Ack] hands it the five bytes [| type = ACK | seq |]. *)
Theorem UDPConn_wire_format now err (body : list byte) (s : Z) c c' e :
  Z.of_nat (length body) <= 2 ^ 32 - 14 ->
  Write now err body c = WriteDone c' e ->
  UdpConn c' =
    UdpConn c ++ [msg_layout TYPE_NORMAL (wrap32 (seq c + 1))
                             (Z.of_nat (length body)) body]
  /\ UdpConn (Ack err s c).1 = UdpConn c ++ [TYPE_ACK :: be32 s]
  /\ exists m,
      PkgBytes (New TYPE_NORMAL (wrap32 (seq c + 1)) body) =
      Ret (be32 (ChecksumIEEE
                   (msg_layout TYPE_NORMAL (wrap32 (seq c + 1))
                               (Z.of_nat (length body)) body))
           ++ msg_layout TYPE_NORMAL (wrap32 (seq c + 1))
                         (Z.of_nat (length body)) body, m).
Proof.
  intros Hl HW.
  split; [apply (Write_datagram now err body c c' e); [lia | exact HW] |].
  split; [reflexivity |].
  eexists.
  assert (HL : Len (New TYPE_NORMAL (wrap32 (seq c + 1)) body)
               = Z.of_nat (length body))
    by (simpl; apply wrap32_small; lia).
  rewrite PkgBytes_fresh; [| reflexivity | rewrite HL; lia].
  rewrite (body_field_id _ HL), HL. reflexivity.
Qed.

Lemma UDPConn_wire_format_witness :
  Z.of_nat (length [x61; x62]) <= 2 ^ 32 - 14
  /\ exists c',
      Write 7 None [x61; x62] NewUDPConn = WriteDone c' None
      /\ UdpConn c' = [msg_layout x00 1 2 [x61; x62]]
      /\ UdpConn (Ack None 258 NewUDPConn).1 = [[x01; x00; x00; x01; x02]].
Proof.
  assert (Hl : Z.of_nat (length [x61; x62]) <= 2 ^ 32 - 14)
    by (vm_compute; discriminate).
  assert (Hw : exists c', Write 7 None [x61; x62] NewUDPConn = WriteDone c' None)
    by (eexists; vm_compute; reflexivity).
  destruct Hw as [c' Hw].
  split; [exact Hl |].
  exists c'. split; [exact Hw |].
  destruct (UDPConn_wire_format 7 None [x61; x62] 258 NewUDPConn c' None Hl Hw)
    as (H1 & H2 & _).
  split; [exact H1 | exact H2].
Defined.

(** C3 as stated fails: the datagram of a [Write] and the datagram of an
    [Ack] are shorter than the 13 bytes of the CRC and the header. *)
Lemma UDPConn_datagrams_not_crc_framed :
  exists c' d d',
    Write 7 None [] NewUDPConn = WriteDone c' None
    /\ UdpConn c' = [d] /\ ~ crc_framed d
    /\ UdpConn (Ack None 1 NewUDPConn).1 = [d'] /\ ~ crc_framed d'.
Proof.
  eexists _, _, _.
  split; [vm_compute; reflexivity |].
  split; [reflexivity |].
  split; [intros H%crc_framed_length; simpl in H; lia |].
  split; [reflexivity |].
  intros H%crc_framed_length; simpl in H; lia.
Qed.

(** ** Parsing a header *)

Lemma NewByHeader_len_field MAX (header : list byte) (len : Z) :
  (9 <= length header)%nat ->
  Uint32 (drop MSG_LEN_BEGIN (take MSG_LEN_END header)) = Ret len ->
  NewByHeader MAX header =
  if decide (len > MAX) then Panic (PanicMsgLen len MAX)
  else
    match header !! 0%nat, Uint32 (drop MSG_SEQ_BEGIN (take MSG_SEQ_END header)) with
    | Some t, Ret s => Ret (mkMessage t s len (make len) 0 0 0 0 [])
    | _, _ => Panic PanicIndexOutOfRange
    end.
Proof.
  intros Hlen Hu. unfold NewByHeader.
  destruct header as [|b0 [|b1 [|b2 [|b3 [|b4 [|b5 [|b6 [|b7 [|b8 tl]]]]]]]]];
    simpl in Hlen; try lia.
  cbn [lookup list_lookup].
  unfold MSG_SEQ_END, MSG_LEN_END, MSG_SEQ_BEGIN, MSG_LEN_BEGIN in *.
  cbn [length take drop Uint32] in *.
  destruct (decide _) as [H|_]; [lia|].
  destruct (decide _) as [H|_]; [lia|].
  injection Hu as Hu. rewrite Hu. reflexivity.
Qed.

(** C8, as the code has it.  On a header of at least 9 bytes whose [len]
    field exceeds [MAX_MESSAGE_SIZE], [NewByHeader] panics, the panic value
    being the error that names both lengths: the call does not return, so it
    returns neither a message nor an error result. *)
Theorem NewByHeader_oversize_panics MAX (header : list byte) (len : Z) :
  (9 <= length header)%nat ->
  Uint32 (drop MSG_LEN_BEGIN (take MSG_LEN_END header)) = Ret len ->
  len > MAX ->
  NewByHeader MAX header = Panic (PanicMsgLen len MAX)
  /\ ~ returns (NewByHeader MAX header).
Proof.
  intros Hlen Hu Hgt.
  rewrite (NewByHeader_len_field MAX header len Hlen Hu).
  destruct (decide _) as [_|H]; [| lia].
  split; [reflexivity |]. intros [m Hm]. discriminate.
Qed.

Lemma NewByHeader_oversize_panics_witness :
  NewByHeader 1024 header_1025 = Panic (PanicMsgLen 1025 1024)
  /\ ~ returns (NewByHeader 1024 header_1025).
Proof.
  apply (NewByHeader_oversize_panics 1024 header_1025 1025).
  - simpl. lia.
  - reflexivity.
  - lia.
Defined.

(** C8 as stated fails: with [MAX_MESSAGE_SIZE = 1024] and a header whose
    [len] field is 1025 the call does not return at all, hence returns no
    error result. *)
Lemma NewByHeader_oversize_no_error_result :
  Uint32 (drop MSG_LEN_BEGIN (take MSG_LEN_END header_1025)) = Ret 1025
  /\ ~ returns (NewByHeader 1024 header_1025).
Proof.
  split; [reflexivity |]. intros [m Hm]. vm_compute in Hm. discriminate.
Qed.

(** ** The BBR constants *)

(** C9.  With [BBR_UNIT = 256]: [highGain = floor (2.885 * 256) + 1 = 739],
    [drainGain = floor (256 / 2.885) = 88], [cwndGain = 512],
    [fullBwThresh = 320], [fullBwCnt = 3], the pacing gain cycle is
    [320, 192, 256 x 6] of length 8, and
    [bandwidthWindowSize = gainCycleLength + 2 = 10]. *)
Theorem BBR_constants :
  BBR_UNIT = 256
  /\ highGain = Qfloor (Qmult (Qmake 2885 1000) (inject_Z BBR_UNIT)) + 1
  /\ highGain = 739
  /\ drainGain = Qfloor (Qdiv (inject_Z BBR_UNIT) (Qmake 2885 1000))
  /\ drainGain = 88
  /\ cwndGain = 512
  /\ fullBwThresh = 320
  /\ fullBwCnt = 3
  /\ pacingGain = [320; 192; 256; 256; 256; 256; 256; 256]
  /\ length pacingGain = 8%nat
  /\ gainCycleLength = 8
  /\ bandwidthWindowSize = gainCycleLength + 2
  /\ bandwidthWindowSize = 10.
Proof. vm_compute. repeat split; reflexivity. Qed.

(** ** The RTO timer *)

Section RTO_properties.
Context {W : Type}.
Variable fn : W -> W * option string.

(** Only an armed timer fires; what is left of the state then runs the
    closure. *)
Lemma fire_inv (i : nat) (s s' : rto_state) :
  fire fn i s = Some s' ->
  exists rto,
    rto_timers s !! i = Some (mkTimer rto Armed)
    /\ s' = rto_callback fn rto
              (mkRto (rto_msg s) (<[i := mkTimer rto Expired]> (rto_timers s))
                     (rto_world s)).
Proof.
  unfold fire. destruct (rto_timers s !! i) as [[rto [ | | ]]|]; try discriminate.
  intros [= <-]. exists rto. split; reflexivity.
Qed.

Lemma rto_callback_acked rto (s : rto_state) :
  is_acked (base (rto_msg s)) -> rto_callback fn rto s = s.
Proof. intros H. unfold rto_callback. destruct (decide _); [done | tauto]. Qed.

Lemma rto_callback_unacked rto (s : rto_state) :
  ~ is_acked (base (rto_msg s)) ->
  rto_callback fn rto s =
  let s2 := mkRto (ResetMiss (rto_msg s)) (rto_timers s)
                  (fn (rto_world s)).1 in
  match (fn (rto_world s)).2 with
  | None => SetRTO rto s2
  | Some _ => s2
  end.
Proof.
  intros H. unfold rto_callback. destruct (decide _); [tauto |].
  cbn [rto_world rto_msg rto_timers]. destruct (fn (rto_world s)); reflexivity.
Qed.

(** C6.  When an armed timer fires: if the acked bit of the message is set,
    the resend function is not run (its world is as before), the message is
    as before and no timer is armed in place of the expired one; otherwise
    the resend function is run once, and a fresh timer with the same RTO is
    armed exactly when it returned no error. *)
Theorem rto_fire_spec (i : nat) (s s' : rto_state) :
  fire fn i s = Some s' ->
  exists rto,
    rto_timers s !! i = Some (mkTimer rto Armed)
    /\ let expired := <[i := mkTimer rto Expired]> (rto_timers s) in
       (is_acked (base (rto_msg s)) ->
          rto_world s' = rto_world s /\ rto_msg s' = rto_msg s
          /\ rto_timers s' = expired)
       /\ (~ is_acked (base (rto_msg s)) ->
          rto_world s' = (fn (rto_world s)).1
          /\ ((fn (rto_world s)).2 = None ->
                rto_timers s' = expired ++ [mkTimer rto Armed]
                /\ resendTimer (rto_msg s') = Some (length expired))
          /\ ((fn (rto_world s)).2 <> None ->
                rto_timers s' = expired
                /\ resendTimer (rto_msg s') = resendTimer (rto_msg s))
          /\ ((fn (rto_world s)).2 = None <->
                rto_timers s' = expired ++ [mkTimer rto Armed])).
Proof.
  intros (rto & Hi & ->)%fire_inv. exists rto. split; [exact Hi |].
  intros expired. split.
  - intros Ha. rewrite rto_callback_acked by exact Ha. done.
  - intros Hn. rewrite rto_callback_unacked by exact Hn.
    cbn [rto_world rto_msg rto_timers].
    destruct (fn (rto_world s)) as [w [e|]] eqn:Hf; cbn [fst snd].
    + split; [reflexivity |]. split; [discriminate |].
      split; [done |]. split; [discriminate |].
      cbn [rto_timers]. intros H%(f_equal length).
      rewrite length_app in H. cbn [length] in H. subst expired. lia.
    + split; [reflexivity |]. split; [done |].
      split; [congruence |]. done.
Qed.

(** C5, as the code has it.  When the timer of a message that is not acked
    fires, the message is resent, its [transmittedAt] (indeed the whole
    embedded message) is left as it was, and its miss count is reset to 0. *)
Theorem rto_fire_unacked_frame (i : nat) (s s' : rto_state) :
  fire fn i s = Some s' ->
  ~ is_acked (base (rto_msg s)) ->
  rto_world s' = (fn (rto_world s)).1
  /\ transmittedAt (base (rto_msg s')) = transmittedAt (base (rto_msg s))
  /\ base (rto_msg s') = base (rto_msg s)
  /\ miss (rto_msg s') = 0.
Proof.
  intros (rto & Hi & ->)%fire_inv Hn.
  rewrite rto_callback_unacked by exact Hn.
  cbn [rto_world rto_msg rto_timers].
  destruct (fn (rto_world s)) as [w [e|]]; cbn [fst snd]; done.
Qed.

End RTO_properties.

Lemma rto_fire_spec_witness :
  exists s',
    fire (resend_log [x61]) 0 rto3_acked = Some s'
    /\ rto_world s' = [] /\ rto_timers s' = [mkTimer 200 Expired].
Proof.
  assert (Hf : exists s', fire (resend_log [x61]) 0 rto3_acked = Some s')
    by (eexists; vm_compute; reflexivity).
  destruct Hf as [s' Hf]. exists s'. split; [exact Hf |].
  destruct (rto_fire_spec (resend_log [x61]) 0%nat rto3_acked s' Hf)
    as (rto & Hi & Ha & _).
  injection Hi as <-.
  destruct Ha as (Hw & _ & Ht); [vm_compute; reflexivity |].
  split; [exact Hw | exact Ht].
Defined.

Lemma rto_fire_unacked_frame_witness :
  exists s',
    fire (resend_log [x61]) 0 rto3 = Some s'
    /\ rto_world s' = [[x61]]
    /\ transmittedAt (base (rto_msg s')) = 5
    /\ miss (rto_msg s') = 0.
Proof.
  assert (Hf : exists s', fire (resend_log [x61]) 0 rto3 = Some s')
    by (eexists; vm_compute; reflexivity).
  destruct Hf as [s' Hf]. exists s'. split; [exact Hf |].
  destruct (rto_fire_unacked_frame (resend_log [x61]) 0%nat rto3 s' Hf)
    as (Hw & Ht & _ & Hm); [vm_compute; intros H; discriminate H |].
  split; [exact Hw |]. split; [exact Ht | exact Hm].
Defined.

(** C5 as stated fails: a message missed twice and not acked has, after its
    timer fired and it was resent, a miss count of 0, not of 3. *)
Lemma rto_fire_resets_miss :
  exists s',
    fire (resend_log [x61]) 0 rto3 = Some s'
    /\ ~ is_acked (base (rto_msg rto3))
    /\ rto_world s' = [[x61]]
    /\ miss (rto_msg rto3) = 2
    /\ miss (rto_msg s') = 0
    /\ miss (rto_msg s') <> wrap32 (miss (rto_msg rto3) + 1).
Proof.
  eexists. split; [vm_compute; reflexivity |].
  split; [vm_compute; intros H; discriminate H |].
  repeat split. vm_compute. discriminate.
Qed.

(** ** The pending maps *)

Lemma slot_taken_testbit wb i :
  0 <= i -> UDPPendingMap.slot_taken wb i = Z.testbit wb i.
Proof.
  intros Hi. unfold UDPPendingMap.slot_taken.
  rewrite Z.shiftl_1_l.
  destruct (Z.testbit wb i) eqn:Hb.
  - apply Z.ltb_lt.
    assert (Z.land wb (2 ^ i) = 2 ^ i).
    { apply Z.bits_inj'. intros n Hn. rewrite Z.land_spec.
      rewrite Z.pow2_bits_eqb by lia.
      destruct (Z.eqb_spec i n) as [<-|]; [now rewrite Hb | apply andb_false_r]. }
    assert (0 < 2 ^ i) by (apply Z.pow_pos_nonneg; lia). lia.
  - apply Z.ltb_ge.
    assert (Z.land wb (2 ^ i) = 0); [| lia].
    apply Z.bits_inj'. intros n Hn. rewrite Z.land_spec, Z.bits_0.
    rewrite Z.pow2_bits_eqb by lia.
    destruct (Z.eqb_spec i n) as [<-|]; [now rewrite Hb | apply andb_false_r].
Qed.

Lemma slot_taken_set wb i j :
  0 <= i -> 0 <= j ->
  UDPPendingMap.slot_taken (Z.lor wb (Z.shiftl 1 i)) j =
  UDPPendingMap.slot_taken wb j || bool_decide (i = j).
Proof.
  intros Hi Hj. rewrite !slot_taken_testbit by lia.
  rewrite Z.lor_spec, Z.shiftl_1_l, Z.pow2_bits_eqb by lia.
  f_equal. destruct (Z.eqb_spec i j); [now rewrite bool_decide_eq_true_2 |
                                      now rewrite bool_decide_eq_false_2].
Qed.

Lemma slot_taken_clear wb i j :
  0 <= i -> 0 <= j ->
  UDPPendingMap.slot_taken (Z.ldiff wb (Z.shiftl 1 i)) j =
  UDPPendingMap.slot_taken wb j && negb (bool_decide (i = j)).
Proof.
  intros Hi Hj. rewrite !slot_taken_testbit by lia.
  rewrite Z.ldiff_spec, Z.shiftl_1_l, Z.pow2_bits_eqb by lia.
  f_equal. destruct (Z.eqb_spec i j); [now rewrite bool_decide_eq_true_2 |
                                      now rewrite bool_decide_eq_false_2].
Qed.

Lemma mod8_range k : 0 <= k mod 8 < 8.
Proof. apply Z.mod_pos_bound. lia. Qed.

Lemma wrap32_mod8 z : wrap32 z mod 8 = z mod 8.
Proof.
  unfold wrap32. apply Z.mod_mod_divide.
  exists 536870912. reflexivity.
Qed.

Lemma window_inv_new : window_inv UDPPendingMap.NewUDPPendingMap.
Proof.
  split.
  - intros p q Hp. cbn in Hp. set_solver.
  - intros i Hi. split.
    + cbn. unfold UDPPendingMap.slot_taken. rewrite Z.land_0_l. discriminate.
    + intros (p & Hp & _). cbn in Hp. set_solver.
Qed.

(** The map after the critical section of [AddMsg] and of
    [DelMsgAndGetLossMsgs]. *)
Lemma window_inv_add k v acked (m : UDPPendingMap.t) :
  window_inv m ->
  UDPPendingMap.slot_taken (UDPPendingMap.waitBits m) (k mod 8) = false ->
  window_inv
    (UDPPendingMap.mk
       (PendingMap.mk (<[k := v]> (UDPPendingMap.Pending m)) acked)
       (Z.lor (UDPPendingMap.waitBits m) (Z.shiftl 1 (k mod 8)))).
Proof.
  intros [Hone Hmir] Hfree.
  pose proof (mod8_range k) as Hk.
  assert (Hno : forall p, p ∈ dom (UDPPendingMap.Pending m) -> p mod 8 <> k mod 8).
  { intros p Hp Heq.
    assert (Ho : occupied m (k mod 8)) by (exists p; done).
    apply (Hmir (k mod 8) Hk) in Ho. congruence. }
  split.
  - intros p q. unfold UDPPendingMap.Pending; cbn.
    rewrite !dom_insert, !elem_of_union, !elem_of_singleton.
    intros [->|Hp] [->|Hq] Heq; try done.
    + symmetry in Heq. now apply Hno in Heq.
    + now apply Hno in Heq.
    + now apply Hone.
  - intros i Hi. cbn [UDPPendingMap.waitBits].
    rewrite slot_taken_set by lia.
    rewrite orb_true_iff, bool_decide_eq_true, (Hmir i Hi).
    unfold occupied, UDPPendingMap.Pending; cbn.
    split.
    + intros [(p & Hp & Hpi) | <-].
      * exists p. rewrite dom_insert, elem_of_union. auto.
      * exists k. rewrite dom_insert, elem_of_union, elem_of_singleton. auto.
    + intros (p & Hp & Hpi). revert Hp.
      rewrite dom_insert, elem_of_union, elem_of_singleton.
      intros [->|Hp]; [now right | left; now exists p].
Qed.

Lemma window_inv_del k acked (m : UDPPendingMap.t) :
  window_inv m ->
  k ∈ dom (UDPPendingMap.Pending m) ->
  window_inv
    (UDPPendingMap.mk
       (PendingMap.mk (delete k (UDPPendingMap.Pending m)) acked)
       (Z.ldiff (UDPPendingMap.waitBits m) (Z.shiftl 1 (k mod 8)))).
Proof.
  intros [Hone Hmir] Hk.
  pose proof (mod8_range k) as Hkr.
  split.
  - intros p q. unfold UDPPendingMap.Pending; cbn.
    rewrite !dom_delete, !elem_of_difference.
    intros [Hp _] [Hq _]. now apply Hone.
  - intros i Hi. cbn [UDPPendingMap.waitBits].
    rewrite slot_taken_clear by lia.
    rewrite andb_true_iff, negb_true_iff, bool_decide_eq_false, (Hmir i Hi).
    unfold occupied, UDPPendingMap.Pending; cbn.
    split.
    + intros [(p & Hp & Hpi) Hne]. exists p. split; [| done].
      rewrite dom_delete, elem_of_difference, elem_of_singleton.
      split; [done |]. intros ->. done.
    + intros (p & Hp & Hpi). revert Hp.
      rewrite dom_delete, elem_of_difference, elem_of_singleton.
      intros [Hp Hne]. split; [now exists p |].
      intros Heq. apply Hne. apply Hone; [done | done | congruence].
Qed.

Lemma mod8_inj_window k j n :
  0 <= j <= 7 -> 0 <= n <= 7 -> (k - j) mod 8 = (k - n) mod 8 -> j = n.
Proof. intros Hj Hn H. Z.div_mod_to_equations. lia. Qed.

Lemma newest_one_per_slot m k : newest m k -> one_per_slot m.
Proof.
  intros Hw p q Hp Hq Heq.
  destruct (Hw p Hp) as [->|(j & Hj & ->)], (Hw q Hq) as [->|(n & Hn & ->)];
    try done; rewrite ?wrap32_mod8 in Heq.
  - replace (k mod 8) with ((k - 0) mod 8) in Heq by (f_equal; lia).
    apply mod8_inj_window in Heq; lia.
  - replace (k mod 8) with ((k - 0) mod 8) in Heq by (f_equal; lia).
    apply mod8_inj_window in Heq; lia.
  - apply mod8_inj_window in Heq; [congruence | lia | lia].
Qed.

(** The scan over a window in which every pending seq is one of the 7 before
    [k]: no slot is held by a seq other than the one scanned, so the scan
    does not panic, and it collects what is pending under the scanned
    seqs. *)
Lemma loss_scan_window (pending : gmap Z loc) wb k ns acc :
  (forall i, 0 <= i < 8 ->
     (UDPPendingMap.slot_taken wb i = true
      <-> exists p, p ∈ dom pending /\ p mod 8 = i)) ->
  (forall p, p ∈ dom pending -> exists j, 1 <= j <= 7 /\ p = wrap32 (k - j)) ->
  (forall n, n ∈ ns -> 1 <= n <= 7) ->
  UDPPendingMap.loss_scan pending wb k ns acc =
  Ret (acc ++ omap (fun n => pending !! wrap32 (k - n)) ns).
Proof.
  intros Hmir Hwin. revert acc.
  induction ns as [|n ns IH]; intros acc Hns; cbn [UDPPendingMap.loss_scan omap].
  - now rewrite app_nil_r.
  - assert (Hn : 1 <= n <= 7) by (apply Hns; left).
    assert (Hns' : forall n', n' ∈ ns -> 1 <= n' <= 7)
      by (intros n' Hn'; apply Hns; now right).
    cbn zeta. rewrite wrap32_mod8.
    pose proof (mod8_range (k - n)) as Hr.
    cbn [list_omap].
    destruct (UDPPendingMap.slot_taken wb ((k - n) mod 8)) eqn:Hb.
    + apply (Hmir _ Hr) in Hb as (p & Hp & Hpn).
      destruct (Hwin p Hp) as (j & Hj & ->).
      rewrite wrap32_mod8 in Hpn.
      apply mod8_inj_window in Hpn; [subst j | lia | lia].
      apply elem_of_dom in Hp as [l Hl]. rewrite Hl.
      rewrite IH by exact Hns'. now rewrite <- app_assoc.
    + destruct (pending !! wrap32 (k - n)) as [l|] eqn:Hl.
      * assert (Ho : exists p, p ∈ dom pending /\ p mod 8 = (k - n) mod 8).
        { exists (wrap32 (k - n)). split; [| apply wrap32_mod8].
          apply elem_of_dom. eauto. }
        apply (Hmir _ Hr) in Ho. congruence.
      * now apply IH.
Qed.

Lemma testbit_prev i j b :
  0 <= i < 8 -> 0 <= j < 8 -> 0 <= b < 8 -> b <> i -> b <> j ->
  Z.testbit (Z.land (Z.lxor 255 (Z.shiftl 1 i)) (Z.lxor 255 (Z.shiftl 1 j))) b
  = true.
Proof.
  intros Hi Hj Hb Hbi Hbj.
  rewrite Z.land_spec, !Z.lxor_spec, !Z.shiftl_1_l, !Z.pow2_bits_eqb by lia.
  change 255 with (Z.ones 8). rewrite Z.ones_spec_low by lia.
  destruct (Z.eqb_spec i b), (Z.eqb_spec j b); try lia. reflexivity.
Qed.

Lemma prev_nonneg i j :
  0 <= i -> 0 <= j ->
  0 <= Z.land (Z.lxor 255 (Z.shiftl 1 i)) (Z.lxor 255 (Z.shiftl 1 j)).
Proof.
  intros Hi Hj. apply Z.land_nonneg. left. apply Z.lxor_nonneg.
  rewrite Z.shiftl_1_l. split; intros _; [| lia].
  apply Z.pow_nonneg. lia.
Qed.

(** When the gate [m.waitBits&prev > 0] is shut, none of the scanned slots is
    taken. *)
Lemma gate_shut wb i j b :
  0 <= i < 8 -> 0 <= j < 8 -> 0 <= b < 8 -> b <> i -> b <> j ->
  (0 <? Z.land wb (Z.land (Z.lxor 255 (Z.shiftl 1 i))
                          (Z.lxor 255 (Z.shiftl 1 j)))) = false ->
  UDPPendingMap.slot_taken wb b = false.
Proof.
  intros Hi Hj Hb Hbi Hbj Hg. rewrite slot_taken_testbit by lia.
  destruct (Z.testbit wb b) eqn:Hwb; [| reflexivity].
  apply Z.ltb_ge in Hg.
  set (prev := Z.land (Z.lxor _ _) _) in Hg.
  assert (Hnn : 0 <= Z.land wb prev).
  { apply Z.land_nonneg. right. apply prev_nonneg; lia. }
  assert (H0 : Z.land wb prev = 0) by lia.
  assert (Hc : Z.testbit (Z.land wb prev) b = true).
  { rewrite Z.land_spec, Hwb. unfold prev. now rewrite testbit_prev. }
  rewrite H0, Z.bits_0 in Hc. discriminate.
Qed.

Lemma scanned_range n : n ∈ UDPPendingMap.scanned <-> 2 <= n <= 7.
Proof.
  unfold UDPPendingMap.scanned. rewrite !elem_of_cons, elem_of_nil. lia.
Qed.

(** C2, as the code has it.  For a seq [k] pending in a map whose [waitBits]
    mirror the occupied slots and in which every other pending seq is one of
    the 7 before [k], [DelMsgAndGetLossMsgs k] returns [true], removes [k]
    from [Pending] (clearing its bit, marking the message acked and filing it
    under [ackedMessages]) and returns the messages still pending under the
    seqs [k - 7 .. k - 2], oldest first; the seq [k - 1] is not looked at. *)
Theorem DelMsgAndGetLossMsgs_window now k v h (m : UDPPendingMap.t) :
  UDPPendingMap.Pending m !! k = Some v ->
  mirrors m ->
  newest m k ->
  let pending' := delete k (UDPPendingMap.Pending m) in
  let loss := omap (fun n => pending' !! wrap32 (k - n)) [7; 6; 5; 4; 3; 2] in
  UDPPendingMap.DelMsgAndGetLossMsgs now k h m =
    (heap_Acked now v h,
     UDPPendingMap.mk
       (PendingMap.mk pending' (<[k := v]> (UDPPendingMap.ackedMessages m)))
       (Z.ldiff (UDPPendingMap.waitBits m) (Z.shiftl 1 (k mod 8))),
     Ret (true, loss))
  /\ reports_preceding 2 k pending' loss.
Proof.
  intros Hk Hmir Hnew pending' loss.
  assert (Hinv : window_inv m) by (split; [eapply newest_one_per_slot|]; done).
  assert (Hkd : k ∈ dom (UDPPendingMap.Pending m)) by (apply elem_of_dom; eauto).
  pose proof (window_inv_del k (UDPPendingMap.ackedMessages m) m Hinv Hkd)
    as [_ Hmir'].
  unfold mirrors, occupied in Hmir'. cbn in Hmir'. fold pending' in Hmir'.
  assert (Hwin : forall p, p ∈ dom pending' ->
                   exists j, 1 <= j <= 7 /\ p = wrap32 (k - j)).
  { intros p. unfold pending'.
    rewrite dom_delete, elem_of_difference, elem_of_singleton.
    intros [Hp Hne]. destruct (Hnew p Hp) as [->|Hj]; done. }
  split.
  - unfold UDPPendingMap.DelMsgAndGetLossMsgs. rewrite Hk. cbn zeta.
    fold pending'. rewrite wrap32_mod8.
    set (wb := Z.ldiff _ _) in *.
    assert (Hscan :
      (if 0 <? Z.land wb (Z.land (Z.lxor 255 (Z.shiftl 1 (k mod 8)))
                                 (Z.lxor 255 (Z.shiftl 1 ((k - 1) mod 8))))
       then UDPPendingMap.loss_scan pending' wb k UDPPendingMap.scanned []
       else Ret []) = Ret loss).
    { destruct (0 <? _) eqn:Hg.
      - rewrite (loss_scan_window pending' wb k); [done | done | done |].
        intros n Hn%scanned_range. lia.
      - assert (Hnone : forall n, 2 <= n <= 7 ->
                          pending' !! wrap32 (k - n) = None).
        { intros n Hn.
          destruct (pending' !! wrap32 (k - n)) as [l|] eqn:Hl; [| done].
          pose proof (mod8_range (k - n)) as Hr.
          assert (Ho : exists p, p ∈ dom pending' /\ p mod 8 = (k - n) mod 8).
          { exists (wrap32 (k - n)). split; [| apply wrap32_mod8].
            apply elem_of_dom. eauto. }
          apply (Hmir' _ Hr) in Ho.
          rewrite (gate_shut wb (k mod 8) ((k - 1) mod 8)) in Ho;
            [done | apply mod8_range | apply mod8_range | done | | | done].
          - replace (k mod 8) with ((k - 0) mod 8) by (f_equal; lia).
            intros E%mod8_inj_window; lia.
          - intros E%mod8_inj_window; lia. }
        unfold loss. cbn [omap list_omap].
        rewrite !Hnone by lia. reflexivity. }
    rewrite Hscan. reflexivity.
  - intros l. unfold loss. rewrite list_elem_of_omap. split.
    + intros (n & Hn & Hl). exists n. split; [| done].
      now apply scanned_range.
    + intros (j & Hj & Hl). exists j. split; [| done].
      now apply scanned_range.
Qed.

Lemma DelMsg_absent now k h (m : PendingMap.t) :
  PendingMap.Pending m !! k = None -> PendingMap.DelMsg now k h m = (h, m, false).
Proof. intros H. unfold PendingMap.DelMsg. now rewrite H. Qed.

Lemma DelMsgAndGetLossMsgs_absent now k h (m : UDPPendingMap.t) :
  UDPPendingMap.Pending m !! k = None ->
  UDPPendingMap.DelMsgAndGetLossMsgs now k h m = (h, m, Ret (false, [])).
Proof. intros H. unfold UDPPendingMap.DelMsgAndGetLossMsgs. now rewrite H. Qed.

Lemma DelMsg_removes now k h (m : PendingMap.t) :
  PendingMap.Pending (PendingMap.DelMsg now k h m).1.2 !! k = None.
Proof.
  unfold PendingMap.DelMsg.
  destruct (PendingMap.Pending m !! k) eqn:H; cbn; [apply lookup_delete_eq | done].
Qed.

Lemma DelMsgAndGetLossMsgs_removes now k h (m : UDPPendingMap.t) :
  UDPPendingMap.Pending (UDPPendingMap.DelMsgAndGetLossMsgs now k h m).1.2 !! k
  = None.
Proof.
  unfold UDPPendingMap.DelMsgAndGetLossMsgs.
  destruct (UDPPendingMap.Pending m !! k) eqn:H; cbn zeta; [| done].
  destruct (if 0 <? _ then _ else _); cbn; apply lookup_delete_eq.
Qed.

(** C7.  For a seq [k] that is not pending, [DelMsg k] returns [false] and
    [DelMsgAndGetLossMsgs k] returns [false] with no loss, and both leave the
    heap and the map ([Pending], [ackedMessages], and [waitBits] for the UDP
    variant) as they were.  Hence, after a first ack of [k] by either
    operation, whatever it found, a second ack of [k] is such a no-op. *)
Theorem Del_unknown_seq_noop now now' k h (m : PendingMap.t)
    (u : UDPPendingMap.t) :
  PendingMap.Pending m !! k = None ->
  UDPPendingMap.Pending u !! k = None ->
  (PendingMap.DelMsg now k h m = (h, m, false)
   /\ UDPPendingMap.DelMsgAndGetLossMsgs now k h u = (h, u, Ret (false, [])))
  /\ (forall h0 m0,
        let r := PendingMap.DelMsg now k h0 m0 in
        PendingMap.DelMsg now' k r.1.1 r.1.2 = (r.1.1, r.1.2, false))
  /\ (forall h0 u0,
        let r := UDPPendingMap.DelMsgAndGetLossMsgs now k h0 u0 in
        UDPPendingMap.DelMsgAndGetLossMsgs now' k r.1.1 r.1.2
        = (r.1.1, r.1.2, Ret (false, []))).
Proof.
  intros Hm Hu. split; [split |].
  - now apply DelMsg_absent.
  - now apply DelMsgAndGetLossMsgs_absent.
  - split.
    + intros h0 m0 r. apply DelMsg_absent, DelMsg_removes.
    + intros h0 u0 r.
      apply DelMsgAndGetLossMsgs_absent, DelMsgAndGetLossMsgs_removes.
Qed.

Lemma Del_unknown_seq_noop_witness :
  PendingMap.DelMsg 30 4 heap35 PendingMap.NewPendingMap
  = (heap35, PendingMap.NewPendingMap, false)
  /\ UDPPendingMap.DelMsgAndGetLossMsgs 30 4 heap35 udp35
     = (heap35, udp35, Ret (false, [])).
Proof.
  assert (Hm : PendingMap.Pending PendingMap.NewPendingMap !! 4 = None)
    by reflexivity.
  assert (Hu : UDPPendingMap.Pending udp35 !! 4 = None)
    by (vm_compute; reflexivity).
  exact (proj1 (Del_unknown_seq_noop 30 40 4 heap35 PendingMap.NewPendingMap
                  udp35 Hm Hu)).
Defined.

(** *** The window under every interleaving *)

Lemma AddMsg_inv now k v h (m : UDPPendingMap.t) h' m' :
  window_inv m ->
  UDPPendingMap.AddMsg now k v h m = Some (h', m') ->
  window_inv m' /\ UDPPendingMap.Pending m' = <[k := v]> (UDPPendingMap.Pending m).
Proof.
  intros Hinv. unfold UDPPendingMap.AddMsg.
  destruct (UDPPendingMap.slot_taken _ _) eqn:Hb; [discriminate |].
  intros [= <- <-]. split; [now apply window_inv_add | reflexivity].
Qed.

Lemma Del_inv now k h (m : UDPPendingMap.t) :
  window_inv m ->
  let r := UDPPendingMap.DelMsgAndGetLossMsgs now k h m in
  window_inv r.1.2
  /\ UDPPendingMap.Pending r.1.2 = delete k (UDPPendingMap.Pending m).
Proof.
  intros Hinv. unfold UDPPendingMap.DelMsgAndGetLossMsgs.
  destruct (UDPPendingMap.Pending m !! k) as [v|] eqn:Hk; cbn zeta.
  - assert (Hkd : k ∈ dom (UDPPendingMap.Pending m))
      by (apply elem_of_dom; eauto).
    destruct (if 0 <? _ then _ else _); cbn [fst snd];
      (split; [now apply window_inv_del | reflexivity]).
  - cbn [fst snd]. split; [done |]. symmetry. now apply delete_id.
Qed.

Lemma run_window_inv tr h (m : UDPPendingMap.t) :
  window_inv m -> window_inv (map_of (run tr h m)).
Proof.
  revert h m. induction tr as [|[now k v|now k] tr IH]; intros h m Hinv;
    cbn [run].
  - exact Hinv.
  - destruct (UDPPendingMap.AddMsg now k v h m) as [[h' m']|] eqn:Ha.
    + apply IH. now apply (AddMsg_inv now k v h m h' m').
    + now apply IH.
  - pose proof (Del_inv now k h m Hinv) as [Hd _].
    destruct (UDPPendingMap.DelMsgAndGetLossMsgs now k h m) as [[h' m'] [r|p]];
      cbn [fst snd] in Hd; [now apply IH | exact Hd].
Qed.

(** A pending seq stays pending until it is acked. *)
Lemma run_keeps_pending tr h (m : UDPPendingMap.t) p :
  window_inv m ->
  p ∈ dom (UDPPendingMap.Pending m) ->
  p ∈ dom (UDPPendingMap.Pending (map_of (run tr h m)))
  \/ exists now, OpDel now p ∈ tr.
Proof.
  revert h m. induction tr as [|[now k v|now k] tr IH]; intros h m Hinv Hp;
    cbn [run].
  - now left.
  - destruct (UDPPendingMap.AddMsg now k v h m) as [[h' m']|] eqn:Ha.
    + destruct (AddMsg_inv now k v h m h' m' Hinv Ha) as [Hinv' HP].
      destruct (IH h' m' Hinv') as [H|[now' H]].
      * rewrite HP, dom_insert, elem_of_union. now right.
      * now left.
      * right. exists now'. now right.
    + destruct (IH h m Hinv Hp) as [H|[now' H]]; [now left |].
      right. exists now'. now right.
  - destruct (decide (p = k)) as [->|Hne].
    { right. exists now. now left. }
    pose proof (Del_inv now k h m Hinv) as [Hd HP].
    assert (Hp' : p ∈ dom (UDPPendingMap.Pending
                    (UDPPendingMap.DelMsgAndGetLossMsgs now k h m).1.2)).
    { cbn zeta in HP.
      rewrite HP, dom_delete, elem_of_difference, elem_of_singleton. done. }
    destruct (UDPPendingMap.DelMsgAndGetLossMsgs now k h m) as [[h' m'] [r|q]];
      cbn [fst snd] in *; [| now left].
    destruct (IH h' m' Hd Hp') as [H|[now' H]]; [now left |].
    right. exists now'. now right.
Qed.

Lemma AddMsg_parked_iff now k v h (m : UDPPendingMap.t) :
  mirrors m ->
  UDPPendingMap.AddMsg now k v h m = None <-> occupied m (k mod 8).
Proof.
  intros Hmir. rewrite <- (Hmir (k mod 8) (mod8_range k)).
  unfold UDPPendingMap.AddMsg.
  destruct (UDPPendingMap.slot_taken _ _); split; done.
Qed.

Lemma one_per_slot_size (m : UDPPendingMap.t) :
  one_per_slot m -> (size (UDPPendingMap.Pending m) <= 8)%nat.
Proof.
  intros Hone.
  rewrite <- size_dom. unfold size, set_size. cbn.
  set (l := elements (dom (UDPPendingMap.Pending m))).
  assert (Hnd : NoDup ((fun p => p mod 8) <$> l)).
  { apply NoDup_fmap_2_strong; [| apply NoDup_elements].
    intros p q Hp%elem_of_elements Hq%elem_of_elements. now apply Hone. }
  assert (Hsub : (fun p => p mod 8) <$> l ⊆+ [0; 1; 2; 3; 4; 5; 6; 7]).
  { apply NoDup_submseteq; [exact Hnd |].
    intros x (p & -> & _)%list_elem_of_fmap.
    pose proof (mod8_range p) as Hr. rewrite !elem_of_cons.
    lia. }
  apply submseteq_length in Hsub. now rewrite length_fmap in Hsub.
Qed.

(** C4.  From a new UDP pending map, whatever [AddMsg] and
    [DelMsgAndGetLossMsgs] operations are interleaved: at most one pending
    seq falls into each slot [seq mod 8]; at most 8 seqs are pending;
    [AddMsg k] is parked exactly while some pending seq holds the slot
    [k mod 8]; and when a pending seq [p] holds that slot, [AddMsg k] can
    proceed after further operations only if an ack of [p] is among them. *)
Theorem window_under_interleaving (tr tr2 : list op) (h0 : heap) :
  let r := run tr h0 UDPPendingMap.NewUDPPendingMap in
  one_per_slot (map_of r)
  /\ (size (UDPPendingMap.Pending (map_of r)) <= 8)%nat
  /\ (forall now k v,
        UDPPendingMap.AddMsg now k v (heap_of r) (map_of r) = None
        <-> occupied (map_of r) (k mod 8))
  /\ (forall now k v p,
        p ∈ dom (UDPPendingMap.Pending (map_of r)) ->
        p mod 8 = k mod 8 ->
        let r2 := run tr2 (heap_of r) (map_of r) in
        UDPPendingMap.AddMsg now k v (heap_of r2) (map_of r2) <> None ->
        exists now', OpDel now' p ∈ tr2).
Proof.
  intros r.
  assert (Hinv : window_inv (map_of r))
    by (apply run_window_inv, window_inv_new).
  split; [apply Hinv |].
  split; [apply one_per_slot_size, Hinv |].
  split; [intros now k v; apply AddMsg_parked_iff, Hinv |].
  intros now k v p Hp Heq r2 Hgo.
  destruct (run_keeps_pending tr2 (heap_of r) (map_of r) p Hinv Hp)
    as [Hstill|Hack]; [| exact Hack].
  exfalso. apply Hgo.
  assert (Hinv2 : window_inv (map_of r2)) by now apply run_window_inv.
  apply AddMsg_parked_iff; [apply Hinv2 |].
  exists p. split; [exact Hstill | exact Heq].
Qed.

Lemma window_under_interleaving_witness :
  let r := run trace19 heap19 UDPPendingMap.NewUDPPendingMap in
  UDPPendingMap.AddMsg 20 9 2%nat (heap_of r) (map_of r) = None
  /\ (size (UDPPendingMap.Pending (map_of r)) <= 8)%nat
  /\ exists now', OpDel now' 1 ∈ [OpDel 30 1].
Proof.
  intros r.
  destruct (window_under_interleaving trace19 [OpDel 30 1] heap19)
    as (_ & Hsize & Hpark & Hgo).
  assert (Hp : 1 ∈ dom (UDPPendingMap.Pending (map_of r)))
    by (apply elem_of_dom; exists 1%nat; vm_compute; reflexivity).
  split; [| split; [exact Hsize |]].
  - apply Hpark. exists 1. split; [exact Hp | reflexivity].
  - apply (Hgo 40 9 2%nat 1 Hp); [reflexivity |].
    vm_compute. discriminate.
Defined.

Lemma udp35_Pending :
  UDPPendingMap.Pending udp35 = <[5 := 2%nat]> (<[3 := 1%nat]> ∅).
Proof. reflexivity. Qed.

Lemma DelMsgAndGetLossMsgs_window_witness :
  exists h' m',
    UDPPendingMap.DelMsgAndGetLossMsgs 30 5 heap35 udp35
    = (h', m', Ret (true, [1%nat]))
    /\ UDPPendingMap.Pending m' = delete 5 (UDPPendingMap.Pending udp35).
Proof.
  assert (Hk : UDPPendingMap.Pending udp35 !! 5 = Some 2%nat)
    by (vm_compute; reflexivity).
  assert (Hmir : mirrors udp35)
    by (apply (run_window_inv trace35 heap35), window_inv_new).
  assert (Hnew : newest udp35 5).
  { intros p. rewrite udp35_Pending, !dom_insert, dom_empty.
    rewrite !elem_of_union, !elem_of_singleton, elem_of_empty.
    intros [->|[->|[]]]; [now left |].
    right. exists 2. split; [lia | reflexivity]. }
  destruct (DelMsgAndGetLossMsgs_window 30 5 2%nat heap35 udp35 Hk Hmir Hnew)
    as [Heq _].
  eexists _, _. split; [exact Heq | reflexivity].
Defined.

(** C2 as stated fails: with seqs 1 and 2 pending, the ack of seq 2 returns
    no loss although seq 1, the seq just before it, is still pending. *)
Lemma DelMsgAndGetLossMsgs_skips_predecessor :
  exists h' m' loss,
    UDPPendingMap.Pending udp12 !! 2 = Some 2%nat
    /\ UDPPendingMap.DelMsgAndGetLossMsgs 30 2 heap12 udp12
       = (h', m', Ret (true, loss))
    /\ UDPPendingMap.Pending m' !! wrap32 (2 - 1) = Some 1%nat
    /\ loss = []
    /\ ~ reports_preceding 1 2 (UDPPendingMap.Pending m') loss.
Proof.
  eexists _, _, _.
  split; [vm_compute; reflexivity |].
  split; [vm_compute; reflexivity |].
  split; [vm_compute; reflexivity |].
  split; [reflexivity |].
  intros H. destruct (H 1%nat) as [_ Hin].
  assert (Hbad : 1%nat ∈ @nil nat).
  { apply Hin. exists 1. split; [lia |]. vm_compute. reflexivity. }
  inversion Hbad.
Qed.

(** Outside the window of the theorem above: with seqs 1 and 2 pending, the
    ack of seq 1 finds the slot of seq [1 - 7] held by seq 2 and panics. *)
Lemma DelMsgAndGetLossMsgs_panics_under_later_seq :
  exists h' m',
    UDPPendingMap.DelMsgAndGetLossMsgs 30 1 heap12 udp12
    = (h', m', Panic (PanicStr "udp pending map !ok")).
Proof. eexists _, _. vm_compute. reflexivity. Qed.

(** ** In-order delivery *)

Lemma ReadLoop_unimplemented c :
  ReadLoop c = Panic (PanicStr "UDPConn unimplemented ReadLoop").
Proof. reflexivity. Qed.

Section Delivery.
Import Receiver.
Variable bodies : list (list byte).
Hypothesis bodies_few : Z.of_nat (length bodies) < 2 ^ 32.







End Delivery.



(* ===================================================================== *)
(** * Further properties of the code                                     *)
(* ===================================================================== *)

(** ** Bytes and big-endian words *)

Lemma Z_of_byte_range b : 0 <= Z_of_byte b < 256.
Proof.
  unfold Z_of_byte. pose proof (Byte.to_N_bounded b). lia.
Qed.

Lemma Z_of_byte_of_Z z : Z_of_byte (byte_of_Z z) = z mod 256.
Proof.
  unfold Z_of_byte, byte_of_Z.
  pose proof (Z.mod_pos_bound z 256 ltac:(lia)) as Hr.
  destruct (Byte.of_N (Z.to_N (z mod 256))) as [b|] eqn:Hb.
  - apply Byte.to_of_N in Hb. rewrite Hb. lia.
  - apply Byte.of_N_None_iff in Hb. lia.
Qed.




(** Bit [n] of the byte taken from [v] at shift [s] and put back at [s]. *)
Lemma testbit_byte_at v s n :
  0 <= s -> 0 <= n ->
  Z.testbit (Z.shiftl (Z_of_byte (byte_of_Z (Z.shiftr v s))) s) n
  = (s <=? n) && (n <? s + 8) && Z.testbit v n.
Proof.
  intros Hs Hn. rewrite Z_of_byte_of_Z. change 256 with (2 ^ 8).
  destruct (Z.leb_spec s n) as [Hle|Hlt].
  - rewrite Z.shiftl_spec by lia.
    rewrite Z.testbit_mod_pow2 by lia.
    rewrite Z.shiftr_spec by lia.
    replace (n - s + s) with n by lia. cbn [andb].
    f_equal. destruct (Z.ltb_spec (n - s) 8), (Z.ltb_spec n (s + 8)); lia.
  - now rewrite Z.shiftl_spec_low by lia.
Qed.

(** [Uint32] after [PutUint32]: the low 32 bits come back. *)
Lemma Uint32_be32 v rest : Uint32 (be32 v ++ rest) = Ret (wrap32 v).
Proof.
  unfold be32, Uint32, wrap32. cbn [app]. f_equal.
  apply Z.bits_inj'. intros n Hn.
  rewrite !Z.lor_spec.
  rewrite <- (Z.shiftl_0_r (Z_of_byte (byte_of_Z v))).
  replace (byte_of_Z v) with (byte_of_Z (Z.shiftr v 0)) by now rewrite Z.shiftr_0_r.
  rewrite !testbit_byte_at by lia.
  rewrite Z.testbit_mod_pow2 by lia.
  destruct (Z.testbit v n); rewrite ?andb_false_r, ?andb_true_r; [| reflexivity].
  destruct (Z.leb_spec 24 n), (Z.leb_spec 16 n), (Z.leb_spec 8 n),
    (Z.leb_spec 0 n), (Z.ltb_spec n (24 + 8)), (Z.ltb_spec n (16 + 8)),
    (Z.ltb_spec n (8 + 8)), (Z.ltb_spec n (0 + 8)), (Z.ltb_spec n 32);
    try lia; reflexivity.
Qed.




(** ** The CRC is a 32-bit word *)

Lemma lxor_range a b n :
  0 <= n -> 0 <= a < 2 ^ n -> 0 <= b < 2 ^ n -> 0 <= Z.lxor a b < 2 ^ n.
Proof.
  intros Hn Ha Hb.
  assert (Hm : Z.lxor a b = Z.lxor a b mod 2 ^ n).
  { apply Z.bits_inj'. intros m Hm.
    rewrite Z.testbit_mod_pow2 by lia.
    destruct (Z.ltb_spec m n) as [Hlt|Hge]; [reflexivity |].
    rewrite Z.lxor_spec. cbn [andb].
    rewrite <- (Z.mod_small a (2 ^ n)), <- (Z.mod_small b (2 ^ n)) by lia.
    now rewrite !Z.mod_pow2_bits_high by lia. }
  rewrite Hm. apply Z.mod_pos_bound. lia.
Qed.

Lemma crc_bit_range c : is_uint32 c -> is_uint32 (crc_bit c).
Proof.
  unfold is_uint32, crc_bit. intros Hc.
  assert (Hs : 0 <= Z.shiftr c 1 < 2 ^ 32).
  { rewrite Z.shiftr_div_pow2 by lia. change (2 ^ 1) with 2.
    split; [apply Z.div_pos; lia |].
    apply Z.div_lt_upper_bound; lia. }
  destruct (Z.testbit c 0); [| exact Hs].
  apply lxor_range; [lia | exact Hs | lia].
Qed.

Lemma crc_byte_range c b : is_uint32 c -> is_uint32 (crc_byte c b).
Proof.
  intros Hc. unfold crc_byte.
  assert (H0 : is_uint32 (Z.lxor c (Z_of_byte b))).
  { pose proof (Z_of_byte_range b). apply lxor_range; [lia | exact Hc | lia]. }
  cbn [Nat.iter]. now do 8 apply crc_bit_range.
Qed.

Lemma ChecksumIEEE_range data : is_uint32 (ChecksumIEEE data).
Proof.
  unfold ChecksumIEEE.
  assert (H : forall c, is_uint32 c -> is_uint32 (fold_left crc_byte data c)).
  { induction data as [|b data IH]; intros c Hc; cbn [fold_left]; [exact Hc |].
    apply IH, crc_byte_range, Hc. }
  apply lxor_range; [lia | apply H; unfold is_uint32; lia | lia].
Qed.

(** ** Encoding and parsing back *)

Lemma HeaderBytes_eq msg :
  HeaderBytes msg = Ret (Type_ msg :: be32 (Seq msg) ++ be32 (Len msg)).
Proof.
  unfold HeaderBytes, make, MSG_HEADER_SIZE.
  change (Z.to_nat 9) with (9 + 0)%nat. rewrite put_header_zeroed.
  cbn [replicate]. now rewrite app_nil_r.
Qed.

Lemma NewByHeader_layout MAX t s l body :
  is_uint32 s -> is_uint32 l -> l <= MAX ->
  NewByHeader MAX (msg_layout t s l body)
  = Ret (mkMessage t s l (make l) 0 0 0 0 []).
Proof.
  intros Hs Hl Hmax.
  assert (Hlen : Uint32 (drop MSG_LEN_BEGIN (take MSG_LEN_END
                   (msg_layout t s l body))) = Ret l).
  { change (drop MSG_LEN_BEGIN (take MSG_LEN_END (msg_layout t s l body)))
      with (be32 l ++ []).
    rewrite Uint32_be32. f_equal. now apply wrap32_small. }
  rewrite (NewByHeader_len_field MAX _ l);
    [| rewrite length_msg_layout; lia | exact Hlen].
  destruct (decide (l > MAX)) as [H|_]; [lia |].
  change (msg_layout t s l body !! 0%nat) with (Some t).
  change (drop MSG_SEQ_BEGIN (take MSG_SEQ_END (msg_layout t s l body)))
    with (be32 s ++ []).
  rewrite Uint32_be32, wrap32_small by exact Hs. reflexivity.
Qed.

(** X1.  Parsing the header that [HeaderBytes] wrote gives back the type, the
    seq and the len of the message, with a zeroed body of [len] bytes and
    the transient state reset, as long as the len does not exceed the
    maximum. *)
Theorem NewByHeader_HeaderBytes MAX (msg : Message) :
  is_uint32 (Seq msg) -> is_uint32 (Len msg) -> Len msg <= MAX ->
  exists h,
    HeaderBytes msg = Ret h /\ length h = 9%nat
    /\ NewByHeader MAX h
       = Ret (mkMessage (Type_ msg) (Seq msg) (Len msg) (make (Len msg))
                        0 0 0 0 []).
Proof.
  intros Hs Hl Hmax. eexists. split; [apply HeaderBytes_eq |].
  split; [reflexivity |].
  rewrite <- (app_nil_r (be32 (Len msg))).
  now apply (NewByHeader_layout MAX (Type_ msg) (Seq msg) (Len msg) []).
Qed.

Lemma NewByHeader_HeaderBytes_witness :
  exists h,
    HeaderBytes (New TYPE_NORMAL 258 [x61; x62]) = Ret h /\ length h = 9%nat
    /\ NewByHeader 1024 h = Ret (mkMessage x00 258 2 [x00; x00] 0 0 0 0 []).
Proof.
  apply (NewByHeader_HeaderBytes 1024 (New TYPE_NORMAL 258 [x61; x62]));
    unfold is_uint32; vm_compute; repeat split; easy.
Defined.



(** X3.  The buffer [Bytes] builds for a message with an empty cache parses
    back: [NewByHeader] reads from it the type, seq and len of the message,
    and the bytes after the 9 header bytes are the body, cut or padded to
    [len] bytes (the body itself when [len] is its length). *)
Theorem Bytes_parses_back MAX (msg : Message) :
  cache msg = [] -> is_uint32 (Seq msg) ->
  0 <= Len msg <= 2 ^ 32 - 10 -> Len msg <= MAX ->
  exists d m',
    Bytes msg = Ret (d, m')
    /\ Z.of_nat (length d) = 9 + Len msg
    /\ NewByHeader MAX d
       = Ret (mkMessage (Type_ msg) (Seq msg) (Len msg) (make (Len msg))
                        0 0 0 0 [])
    /\ drop 9 d = body_field msg
    /\ (Len msg = Z.of_nat (length (Body msg)) -> drop 9 d = Body msg).
Proof.
  intros Hc Hs Hl Hmax. eexists _, _.
  split; [apply Bytes_fresh; [exact Hc | lia] |].
  split; [rewrite length_msg_layout, length_body_field by lia; lia |].
  split; [apply NewByHeader_layout; [exact Hs | unfold is_uint32; lia | exact Hmax] |].
  split; [reflexivity |].
  intros E. rewrite <- (body_field_id msg E). reflexivity.
Qed.

Lemma Bytes_parses_back_witness :
  exists d m',
    Bytes (New TYPE_NORMAL 7 [x61; x62]) = Ret (d, m')
    /\ NewByHeader 1024 d = Ret (mkMessage x00 7 2 [x00; x00] 0 0 0 0 [])
    /\ drop 9 d = [x61; x62].
Proof.
  destruct (Bytes_parses_back 1024 (New TYPE_NORMAL 7 [x61; x62]))
    as (d & m' & Hb & _ & Hn & _ & Hd);
    [reflexivity | unfold is_uint32; vm_compute; repeat split; easy
     | vm_compute; repeat split; easy | vm_compute; easy |].
  exists d, m'. split; [exact Hb |]. split; [exact Hn |].
  apply Hd. reflexivity.
Defined.

(** X4.  The datagram [PkgBytes] builds for a message with an empty cache
    checks out on the receiving side: the big-endian word in its first four
    bytes is the CRC-32 of the bytes after them, [NewByHeader] reads the
    type, seq and len of the message from those bytes, and after the 13
    bytes of CRC and header comes the body field. *)
Theorem PkgBytes_verifies MAX (msg : Message) :
  cache msg = [] -> is_uint32 (Seq msg) ->
  0 <= Len msg <= 2 ^ 32 - 14 -> Len msg <= MAX ->
  exists pkg m',
    PkgBytes msg = Ret (pkg, m')
    /\ Uint32 pkg = Ret (ChecksumIEEE (drop 4 pkg))
    /\ NewByHeader MAX (drop 4 pkg)
       = Ret (mkMessage (Type_ msg) (Seq msg) (Len msg) (make (Len msg))
                        0 0 0 0 [])
    /\ drop 13 pkg = body_field msg.
Proof.
  intros Hc Hs Hl Hmax. eexists _, _.
  split; [apply PkgBytes_fresh; [exact Hc | lia] |].
  unfold pkg_layout.
  split.
  - rewrite Uint32_be32, wrap32_small by apply ChecksumIEEE_range.
    reflexivity.
  - split; [| reflexivity].
    change (drop 4 (be32 ?c ++ ?l)) with l.
    apply NewByHeader_layout; [exact Hs | unfold is_uint32; lia | exact Hmax].
Qed.

Lemma PkgBytes_verifies_witness :
  exists pkg m',
    PkgBytes (New TYPE_NORMAL 7 [x61; x62]) = Ret (pkg, m')
    /\ Uint32 pkg = Ret (ChecksumIEEE (drop 4 pkg))
    /\ drop 13 pkg = [x61; x62].
Proof.
  destruct (PkgBytes_verifies 1024 (New TYPE_NORMAL 7 [x61; x62]))
    as (pkg & m' & Hb & Hu & _ & Hd);
    [reflexivity | unfold is_uint32; vm_compute; repeat split; easy
     | vm_compute; repeat split; easy | vm_compute; easy |].
  exists pkg, m'. split; [exact Hb |]. split; [exact Hu | exact Hd].
Defined.

(** ** Status bits and round-trip time *)

Lemma land_lor_same s b : Z.land (Z.lor s b) b = b.
Proof.
  apply Z.bits_inj'. intros n Hn. rewrite Z.land_spec, Z.lor_spec.
  destruct (Z.testbit s n), (Z.testbit b n); reflexivity.
Qed.

Lemma Acked_is_acked now m : is_acked (Acked now m).
Proof.
  unfold is_acked. cbn [status Acked]. rewrite land_lor_same.
  unfold MSG_STATUS_ACKED. lia.
Qed.

Lemma testbit_keeps_lor s b n : Z.testbit s n = true -> Z.testbit (Z.lor s b) n = true.
Proof. intros H. now rewrite Z.lor_spec, H. Qed.

(** X5.  In the plain pending map, adding a message under [k] at time
    [now1] and acking [k] at time [now2] finds it: [DelMsg] returns [true],
    [Pending] is what it was without [k], [ackedMessages] holds the message
    under [k], the message has both status bits set and a round-trip time
    of [now2 - now1], and no other message on the heap is touched. *)
Theorem PendingMap_add_then_ack now1 now2 k (v : loc) (h : heap)
    (m : PendingMap.t) (msg : Message) :
  h !! v = Some msg ->
  let a := PendingMap.AddMsg now1 k v h m in
  exists h2 m2 msg2,
    PendingMap.DelMsg now2 k a.1 a.2 = (h2, m2, true)
    /\ PendingMap.Pending m2 = delete k (PendingMap.Pending m)
    /\ PendingMap.ackedMessages m2 = <[k := v]> (PendingMap.ackedMessages m)
    /\ h2 !! v = Some msg2
    /\ GetRTT msg2 = now2 - now1
    /\ Z.land (Status msg2) MSG_STATUS_TRANSMITTED > 0
    /\ is_acked msg2
    /\ (Type_ msg2, Seq msg2, Len msg2, Body msg2, cache msg2)
       = (Type_ msg, Seq msg, Len msg, Body msg, cache msg)
    /\ forall l, l <> v -> h2 !! l = h !! l.
Proof.
  intros Hv a. unfold a, PendingMap.AddMsg, PendingMap.DelMsg.
  cbn [fst snd PendingMap.Pending PendingMap.ackedMessages].
  rewrite lookup_insert_eq.
  eexists _, _, (Acked now2 (Transmitted now1 msg)).
  split; [reflexivity |].
  cbn [PendingMap.Pending PendingMap.ackedMessages].
  split; [apply delete_insert_eq |]. split; [reflexivity |].
  split.
  { unfold heap_Acked, heap_Transmitted. now rewrite !lookup_alter_eq, Hv. }
  split; [reflexivity |].
  split.
  { unfold Status. cbn [status Acked Transmitted].
    assert (H : Z.land (Z.lor (Z.lor (status msg) MSG_STATUS_TRANSMITTED)
                              MSG_STATUS_ACKED) MSG_STATUS_TRANSMITTED = 1);
      [| lia].
    apply Z.bits_inj'. intros n Hn. rewrite Z.land_spec, !Z.lor_spec.
    unfold MSG_STATUS_TRANSMITTED, MSG_STATUS_ACKED.
    destruct (Z.eq_dec n 0) as [->|Hne]; [cbn; now rewrite orb_true_r |].
    replace (Z.testbit 1 n) with false; [apply andb_false_r |].
    symmetry. change 1 with (2 ^ 0). rewrite Z.pow2_bits_eqb by lia.
    apply Z.eqb_neq. lia. }
  split; [apply Acked_is_acked |]. split; [reflexivity |].
  intros l Hl. unfold heap_Acked, heap_Transmitted.
  now rewrite !lookup_alter_ne by done.
Qed.

Lemma PendingMap_add_then_ack_witness :
  exists h2 m2 msg2,
    PendingMap.DelMsg 75 2
      (PendingMap.AddMsg 50 2 2%nat heap12 PendingMap.NewPendingMap).1
      (PendingMap.AddMsg 50 2 2%nat heap12 PendingMap.NewPendingMap).2
    = (h2, m2, true)
    /\ h2 !! 2%nat = Some msg2 /\ GetRTT msg2 = 25.
Proof.
  destruct (PendingMap_add_then_ack 50 75 2 2%nat heap12
              PendingMap.NewPendingMap (New TYPE_NORMAL 2 [x62]))
    as (h2 & m2 & msg2 & Hd & _ & _ & Hh & Hr & _); [reflexivity |].
  exists h2, m2, msg2. split; [exact Hd |]. split; [exact Hh | exact Hr].
Defined.

(** ** More on the window of the UDP pending map *)

Lemma loss_scan_panics (pending : gmap Z loc) wb k ns acc n :
  n ∈ ns ->
  UDPPendingMap.slot_taken wb (wrap32 (k - n) mod 8) = true ->
  pending !! wrap32 (k - n) = None ->
  UDPPendingMap.loss_scan pending wb k ns acc
  = Panic (PanicStr "udp pending map !ok").
Proof.
  intros Hin Hb Hnone. revert acc.
  induction ns as [|n0 ns IH]; intros acc; [inversion Hin |].
  cbn [UDPPendingMap.loss_scan]. cbn zeta.
  apply elem_of_cons in Hin as [<-|Hin].
  - now rewrite Hb, Hnone.
  - destruct (UDPPendingMap.slot_taken wb (wrap32 (k - n0) mod 8));
      [| now apply IH].
    destruct (pending !! wrap32 (k - n0)); [now apply IH | reflexivity].
Qed.

Lemma gate_open wb i j b :
  0 <= i < 8 -> 0 <= j < 8 -> 0 <= b < 8 -> b <> i -> b <> j ->
  UDPPendingMap.slot_taken wb b = true ->
  (0 <? Z.land wb (Z.land (Z.lxor 255 (Z.shiftl 1 i))
                          (Z.lxor 255 (Z.shiftl 1 j)))) = true.
Proof.
  intros Hi Hj Hb Hbi Hbj Ht.
  destruct (0 <? _) eqn:Hg; [reflexivity |].
  rewrite (gate_shut wb i j b) in Ht; done.
Qed.

Lemma wrap32_plus8_ne a : wrap32 a <> wrap32 (a + 8).
Proof.
  unfold wrap32. change (2 ^ 32) with 4294967296.
  intros H. Z.div_mod_to_equations. lia.
Qed.

(** X6.  In a UDP pending map that keeps its window invariants, the ack of
    a pending seq [k] panics with "udp pending map !ok" whenever one of the
    six seqs after [k] is pending too: the scan takes the slot of seq
    [k + j] for that of seq [k + j - 8]. *)
Theorem DelMsgAndGetLossMsgs_panics_before_later now k j (h : heap)
    (m : UDPPendingMap.t) :
  window_inv m ->
  k ∈ dom (UDPPendingMap.Pending m) ->
  1 <= j <= 6 ->
  wrap32 (k + j) ∈ dom (UDPPendingMap.Pending m) ->
  exists m',
    UDPPendingMap.DelMsgAndGetLossMsgs now k h m
    = (h, m', Panic (PanicStr "udp pending map !ok"))
    /\ UDPPendingMap.Pending m' = delete k (UDPPendingMap.Pending m).
Proof.
  intros Hinv Hk Hj Hp.
  pose proof (window_inv_del k (UDPPendingMap.ackedMessages m) m Hinv Hk)
    as [Hone' Hmir'].
  apply elem_of_dom in Hk as Hkv. destruct Hkv as [v Hv].
  unfold UDPPendingMap.DelMsgAndGetLossMsgs. rewrite Hv. cbn zeta.
  set (pending' := delete k (UDPPendingMap.Pending m)) in *.
  set (wb := Z.ldiff _ _) in *.
  set (n := 8 - j).
  assert (Hslot : wrap32 (k + j) mod 8 = (k - n) mod 8).
  { rewrite wrap32_mod8. unfold n. Z.div_mod_to_equations. lia. }
  assert (Hpk : wrap32 (k + j) <> k).
  { intros E. rewrite E in Hslot.
    replace (k mod 8) with ((k - 0) mod 8) in Hslot by (f_equal; lia).
    apply mod8_inj_window in Hslot; unfold n in *; lia. }
  assert (Hp' : wrap32 (k + j) ∈ dom pending').
  { unfold pending'. rewrite dom_delete, elem_of_difference, elem_of_singleton.
    done. }
  pose proof (mod8_range (k - n)) as Hr.
  assert (Ht : UDPPendingMap.slot_taken wb ((k - n) mod 8) = true).
  { apply (Hmir' _ Hr). exists (wrap32 (k + j)). done. }
  assert (Hnone : pending' !! wrap32 (k - n) = None).
  { destruct (pending' !! wrap32 (k - n)) as [l|] eqn:Hl; [| done].
    exfalso.
    assert (Hq : wrap32 (k - n) ∈ dom pending') by (apply elem_of_dom; eauto).
    assert (E : wrap32 (k - n) = wrap32 (k + j)).
    { apply (Hone' _ _ Hq Hp'). now rewrite wrap32_mod8, Hslot. }
    apply (wrap32_plus8_ne (k - n)). rewrite E. f_equal. unfold n. lia. }
  rewrite wrap32_mod8.
  rewrite (gate_open wb (k mod 8) ((k - 1) mod 8) ((k - n) mod 8));
    [| apply mod8_range | apply mod8_range | exact Hr | | | exact Ht].
  - rewrite (loss_scan_panics pending' wb k UDPPendingMap.scanned [] n);
      [| apply scanned_range; unfold n; lia
       | now rewrite wrap32_mod8 | exact Hnone].
    eexists. split; reflexivity.
  - replace (k mod 8) with ((k - 0) mod 8) by (f_equal; lia).
    intros E%mod8_inj_window; unfold n in *; lia.
  - intros E%mod8_inj_window; unfold n in *; lia.
Qed.

Lemma DelMsgAndGetLossMsgs_panics_before_later_witness :
  exists m',
    UDPPendingMap.DelMsgAndGetLossMsgs 30 1 heap12 udp12
    = (heap12, m', Panic (PanicStr "udp pending map !ok")).
Proof.
  destruct (DelMsgAndGetLossMsgs_panics_before_later 30 1 1 heap12 udp12)
    as (m' & Hd & _).
  - apply (run_window_inv trace12 heap12), window_inv_new.
  - apply elem_of_dom. exists 1%nat. vm_compute. reflexivity.
  - lia.
  - apply elem_of_dom. exists 2%nat. vm_compute. reflexivity.
  - exists m'. exact Hd.
Defined.

(** The ack of the newest pending seq, as an equation on the whole result. *)
Lemma Del_newest now k v h (m : UDPPendingMap.t) :
  UDPPendingMap.Pending m !! k = Some v ->
  mirrors m ->
  newest m k ->
  UDPPendingMap.DelMsgAndGetLossMsgs now k h m =
    (heap_Acked now v h,
     UDPPendingMap.mk
       (PendingMap.mk (delete k (UDPPendingMap.Pending m))
                      (<[k := v]> (UDPPendingMap.ackedMessages m)))
       (Z.ldiff (UDPPendingMap.waitBits m) (Z.shiftl 1 (k mod 8))),
     Ret (true, omap (fun n => delete k (UDPPendingMap.Pending m)
                               !! wrap32 (k - n)) [7; 6; 5; 4; 3; 2])).
Proof.
  intros Hk Hmir Hnew.
  set (pending' := delete k (UDPPendingMap.Pending m)).
  assert (Hinv : window_inv m) by (split; [eapply newest_one_per_slot|]; done).
  assert (Hkd : k ∈ dom (UDPPendingMap.Pending m)) by (apply elem_of_dom; eauto).
  pose proof (window_inv_del k (UDPPendingMap.ackedMessages m) m Hinv Hkd)
    as [_ Hmir'].
  unfold mirrors, occupied in Hmir'. cbn in Hmir'. fold pending' in Hmir'.
  assert (Hwin : forall p, p ∈ dom pending' ->
                   exists j, 1 <= j <= 7 /\ p = wrap32 (k - j)).
  { intros p. unfold pending'.
    rewrite dom_delete, elem_of_difference, elem_of_singleton.
    intros [Hp Hne]. destruct (Hnew p Hp) as [->|Hj]; done. }
  unfold UDPPendingMap.DelMsgAndGetLossMsgs. rewrite Hk. cbn zeta.
  fold pending'. rewrite wrap32_mod8.
  set (wb := Z.ldiff _ _) in *.
  destruct (0 <? _) eqn:Hg.
  - rewrite (loss_scan_window pending' wb k); [done | done | done |].
    intros n Hn%scanned_range. lia.
  - assert (Hnone : forall n, 2 <= n <= 7 ->
                      pending' !! wrap32 (k - n) = None).
    { intros n Hn.
      destruct (pending' !! wrap32 (k - n)) as [l|] eqn:Hl; [| done].
      pose proof (mod8_range (k - n)) as Hr.
      assert (Ho : exists p, p ∈ dom pending' /\ p mod 8 = (k - n) mod 8).
      { exists (wrap32 (k - n)). split; [| apply wrap32_mod8].
        apply elem_of_dom. eauto. }
      apply (Hmir' _ Hr) in Ho.
      rewrite (gate_shut wb (k mod 8) ((k - 1) mod 8)) in Ho;
        [done | apply mod8_range | apply mod8_range | done | | | done].
      - replace (k mod 8) with ((k - 0) mod 8) by (f_equal; lia).
        intros E%mod8_inj_window; lia.
      - intros E%mod8_inj_window; lia. }
    cbn [omap list_omap]. rewrite !Hnone by lia. reflexivity.
Qed.

Lemma ldiff_lor_free wb i :
  0 <= i -> UDPPendingMap.slot_taken wb i = false ->
  Z.ldiff (Z.lor wb (Z.shiftl 1 i)) (Z.shiftl 1 i) = wb.
Proof.
  intros Hi Hf. rewrite slot_taken_testbit in Hf by lia.
  apply Z.bits_inj'. intros n Hn.
  rewrite Z.ldiff_spec, Z.lor_spec, Z.shiftl_1_l, Z.pow2_bits_eqb by lia.
  destruct (Z.eqb_spec i n) as [<-|]; [rewrite Hf; reflexivity |].
  now rewrite orb_false_r, andb_true_r.
Qed.

(** X7.  Add, then ack, in the UDP pending map.  When every pending seq is
    one of the 7 before [k] and [waitBits] mirrors the occupied slots,
    [AddMsg k] proceeds at once, and the ack of [k] that follows returns
    [true] with the messages pending under [k - 7 .. k - 2], and leaves
    [Pending] and [waitBits] exactly as they were before the add;
    [ackedMessages] has gained [k]. *)
Theorem UDPPendingMap_add_then_ack now1 now2 k (v : loc) (h : heap)
    (m : UDPPendingMap.t) :
  mirrors m ->
  (forall p, p ∈ dom (UDPPendingMap.Pending m) ->
     exists j, 1 <= j <= 7 /\ p = wrap32 (k - j)) ->
  exists h1 m1 h2 m2,
    UDPPendingMap.AddMsg now1 k v h m = Some (h1, m1)
    /\ UDPPendingMap.DelMsgAndGetLossMsgs now2 k h1 m1
       = (h2, m2,
          Ret (true, omap (fun n => UDPPendingMap.Pending m !! wrap32 (k - n))
                          [7; 6; 5; 4; 3; 2]))
    /\ UDPPendingMap.Pending m2 = UDPPendingMap.Pending m
    /\ UDPPendingMap.waitBits m2 = UDPPendingMap.waitBits m
    /\ UDPPendingMap.ackedMessages m2
       = <[k := v]> (UDPPendingMap.ackedMessages m).
Proof.
  intros Hmir Hwin.
  pose proof (mod8_range k) as Hkr.
  assert (Hnew : newest m k) by (intros p Hp; right; now apply Hwin).
  assert (Hinv : window_inv m) by (split; [eapply newest_one_per_slot|]; done).
  assert (Hfree : UDPPendingMap.slot_taken (UDPPendingMap.waitBits m) (k mod 8)
                  = false).
  { destruct (UDPPendingMap.slot_taken _ _) eqn:Hb; [| done].
    apply (Hmir _ Hkr) in Hb as (p & Hp & Hpk).
    destruct (Hwin p Hp) as (j & Hj & ->). rewrite wrap32_mod8 in Hpk.
    replace (k mod 8) with ((k - 0) mod 8) in Hpk by (f_equal; lia).
    apply mod8_inj_window in Hpk; lia. }
  assert (Hknone : UDPPendingMap.Pending m !! k = None).
  { destruct (UDPPendingMap.Pending m !! k) as [l|] eqn:Hl; [| done].
    assert (Ho : occupied m (k mod 8)).
    { exists k. split; [apply elem_of_dom; eauto | done]. }
    apply (Hmir _ Hkr) in Ho. congruence. }
  unfold UDPPendingMap.AddMsg. rewrite Hfree. cbn zeta.
  set (m1 := UDPPendingMap.mk _ _).
  assert (Hinv1 : window_inv m1) by now apply window_inv_add.
  assert (Hnew1 : newest m1 k).
  { intros p. unfold m1, UDPPendingMap.Pending. cbn.
    rewrite dom_insert, elem_of_union, elem_of_singleton.
    intros [->|Hp]; [now left | right; now apply Hwin]. }
  assert (Hk1 : UDPPendingMap.Pending m1 !! k = Some v)
    by apply lookup_insert_eq.
  eexists _, m1, _, _. split; [reflexivity |].
  rewrite (Del_newest now2 k v _ m1 Hk1 (proj2 Hinv1) Hnew1).
  assert (Hdel : delete k (UDPPendingMap.Pending m1) = UDPPendingMap.Pending m)
    by (apply delete_insert_id; exact Hknone).
  rewrite Hdel. split; [reflexivity |].
  split; [reflexivity |].
  split; [| reflexivity].
  cbn [UDPPendingMap.waitBits m1]. unfold m1. cbn [UDPPendingMap.waitBits].
  apply ldiff_lor_free; [lia | exact Hfree].
Qed.

Lemma UDPPendingMap_add_then_ack_witness :
  exists h1 m1 h2 m2,
    UDPPendingMap.AddMsg 40 7 3%nat heap35 udp35 = Some (h1, m1)
    /\ UDPPendingMap.DelMsgAndGetLossMsgs 50 7 h1 m1
       = (h2, m2, Ret (true, [1%nat; 2%nat]))
    /\ UDPPendingMap.Pending m2 = UDPPendingMap.Pending udp35
    /\ UDPPendingMap.waitBits m2 = UDPPendingMap.waitBits udp35.
Proof.
  destruct (UDPPendingMap_add_then_ack 40 50 7 3%nat heap35 udp35)
    as (h1 & m1 & h2 & m2 & Ha & Hd & HP & Hw & _).
  - apply (run_window_inv trace35 heap35), window_inv_new.
  - intros p. rewrite udp35_Pending, !dom_insert, dom_empty.
    rewrite !elem_of_union, !elem_of_singleton, elem_of_empty.
    intros [->|[->|[]]]; [exists 2 | exists 4]; (split; [lia | reflexivity]).
  - exists h1, m1, h2, m2. split; [exact Ha |]. split; [exact Hd |].
    split; [exact HP | exact Hw].
Defined.

Lemma slots_of_pending (m : UDPPendingMap.t) :
  one_per_slot m ->
  let l := (fun p => p mod 8) <$> elements (dom (UDPPendingMap.Pending m)) in
  NoDup l /\ length l = size (UDPPendingMap.Pending m)
  /\ (forall i, i ∈ l <-> occupied m i)
  /\ l ⊆+ [0; 1; 2; 3; 4; 5; 6; 7].
Proof.
  intros Hone l.
  assert (Hnd : NoDup l).
  { apply NoDup_fmap_2_strong; [| apply NoDup_elements].
    intros p q Hp%elem_of_elements Hq%elem_of_elements. now apply Hone. }
  split; [exact Hnd |]. split.
  { unfold l. rewrite length_fmap, <- size_dom. reflexivity. }
  split.
  { intros i. unfold l, occupied. rewrite list_elem_of_fmap. split.
    - intros (p & -> & Hp%elem_of_elements). now exists p.
    - intros (p & Hp & <-). exists p. split; [done | now apply elem_of_elements]. }
  apply NoDup_submseteq; [exact Hnd |].
  intros x (p & -> & _)%list_elem_of_fmap.
  pose proof (mod8_range p) as Hr. rewrite !elem_of_cons. lia.
Qed.

(** X8.  Back-pressure of the window.  In a UDP pending map that keeps its
    window invariants, [AddMsg] is parked for every seq exactly when 8
    messages are pending; with fewer pending, some slot is free and every
    [AddMsg] for a seq of that slot proceeds. *)
Theorem window_full_iff_eight (m : UDPPendingMap.t) :
  window_inv m ->
  ((forall now k v h, UDPPendingMap.AddMsg now k v h m = None)
   <-> size (UDPPendingMap.Pending m) = 8%nat)
  /\ ((size (UDPPendingMap.Pending m) < 8)%nat ->
      exists i, 0 <= i < 8 /\
        forall now k v h, k mod 8 = i ->
          UDPPendingMap.AddMsg now k v h m <> None).
Proof.
  intros [Hone Hmir].
  destruct (slots_of_pending m Hone) as (Hnd & Hlen & Hocc & Hsub).
  set (l := (fun p => p mod 8) <$> elements (dom (UDPPendingMap.Pending m)))
    in *.
  assert (Hfull : size (UDPPendingMap.Pending m) = 8%nat ->
                  forall i, 0 <= i < 8 -> occupied m i).
  { intros H8 i Hi. apply Hocc.
    assert (Hperm : l ≡ₚ [0; 1; 2; 3; 4; 5; 6; 7]).
    { apply submseteq_length_Permutation; [exact Hsub |].
      rewrite Hlen, H8. reflexivity. }
    rewrite Hperm, !elem_of_cons. lia. }
  assert (Hsome : (forall i, 0 <= i < 8 -> occupied m i) ->
                  size (UDPPendingMap.Pending m) = 8%nat).
  { intros Hall.
    assert (Hsub' : [0; 1; 2; 3; 4; 5; 6; 7] ⊆+ l).
    { apply NoDup_submseteq.
      - repeat (apply NoDup_cons; split;
                  [rewrite ?elem_of_cons, elem_of_nil; lia |]).
        apply NoDup_nil_2.
      - intros i Hi. apply Hocc, Hall. revert Hi.
        rewrite !elem_of_cons, elem_of_nil. lia. }
    apply submseteq_length in Hsub'. apply submseteq_length in Hsub.
    cbn [length] in Hsub, Hsub'. lia. }
  split; [split |].
  - intros Hpark. apply Hsome. intros i Hi.
    specialize (Hpark 0 i 0%nat ∅).
    apply (AddMsg_parked_iff 0 i 0%nat ∅ m Hmir) in Hpark.
    now rewrite Z.mod_small in Hpark by lia.
  - intros H8 now k v h. apply AddMsg_parked_iff; [exact Hmir |].
    apply Hfull; [exact H8 | apply mod8_range].
  - intros Hlt.
    assert (Hex : exists i, 0 <= i < 8 /\ ~ occupied m i).
    { destruct (decide (Forall (fun i => i ∈ l) [0; 1; 2; 3; 4; 5; 6; 7]))
        as [Hall|Hnot].
      - exfalso. assert (size (UDPPendingMap.Pending m) = 8%nat); [| lia].
        apply Hsome. intros i Hi. apply Hocc.
        rewrite Forall_forall in Hall. apply Hall.
        rewrite !elem_of_cons. lia.
      - apply not_Forall_Exists in Hnot; [| intros i; apply _].
        apply Exists_exists in Hnot as (i & Hi & Hni).
        exists i. split; [revert Hi; rewrite !elem_of_cons, elem_of_nil; lia |].
        intros Ho. apply Hni. cbn. now apply Hocc. }
    destruct Hex as (i & Hi & Hfree). exists i. split; [exact Hi |].
    intros now k v h <- Hpark.
    apply Hfree. now apply (AddMsg_parked_iff now k v h m Hmir).
Qed.

Lemma window_full_iff_eight_witness :
  exists i, 0 <= i < 8 /\
    forall now k v h, k mod 8 = i ->
      UDPPendingMap.AddMsg now k v h udp35 <> None.
Proof.
  apply (window_full_iff_eight udp35).
  - apply (run_window_inv trace35 heap35), window_inv_new.
  - vm_compute. lia.
Defined.

(** ** Retransmission *)

Section RTO_more.
Context {W : Type}.
Variable fn : W -> W * option string.




Lemma fire_current_SetRTO_ok rto (m : UDPMessage) ts w :
  ~ is_acked (base m) -> (fn w).2 = None ->
  fire_current fn (SetRTO rto (mkRto m ts w))
  = Some (SetRTO rto (mkRto (ResetMiss m) (ts ++ [mkTimer rto Expired])
                            (fn w).1)).
Proof.
  intros Hn Hok. unfold fire_current, SetRTO, fire.
  cbn [rto_msg rto_timers rto_world resendTimer set_resendTimer].
  rewrite lookup_app_r, Nat.sub_diag by lia. cbn [lookup list_lookup].
  rewrite rto_callback_unacked by exact Hn.
  cbn [rto_msg rto_timers rto_world]. rewrite Hok.
  replace (<[length ts := mkTimer rto Expired]> (ts ++ [mkTimer rto Armed]))
    with (ts ++ [mkTimer rto Expired]).
  - unfold SetRTO. cbn [rto_msg rto_timers rto_world]. reflexivity.
  - rewrite insert_app_r_alt, Nat.sub_diag by lia. reflexivity.
Qed.

(** X10.  The retransmission chain.  For a message that is not acked and a
    resend function that never fails, the timer armed by [SetRTO] can fire
    any number of times in a row: after [n] firings the message was resent
    [n] times, the embedded message (its [transmittedAt] included) is as it
    was, and exactly one timer, the one the message points to, is armed
    again with the same RTO. *)
Theorem resend_chain rto (m : UDPMessage) ts w (n : nat) :
  ~ is_acked (base m) ->
  (forall w', (fn w').2 = None) ->
  exists m',
    fire_current_n fn n (SetRTO rto (mkRto m ts w))
    = Some (SetRTO rto (mkRto m' (ts ++ replicate n (mkTimer rto Expired))
                              (Nat.iter n (fun w' => (fn w').1) w)))
    /\ base m' = base m
    /\ ((0 < n)%nat -> miss m' = 0).
Proof.
  intros Hn Hok.
  exists (match n with O => m | S _ => ResetMiss m end).
  split; [| destruct n; split; try reflexivity; try lia; intros _; reflexivity].
  revert m ts w Hn.
  induction n as [|n IH]; intros m ts w Hn.
  - cbn [fire_current_n replicate Nat.iter]. now rewrite app_nil_r.
  - cbn [fire_current_n]. rewrite fire_current_SetRTO_ok by auto.
    rewrite (IH (ResetMiss m) (ts ++ [mkTimer rto Expired]) (fn w).1 Hn).
    rewrite Nat.iter_succ_r, <- app_assoc.
    destruct n; reflexivity.
Qed.

(** X11.  A failed resend is not retried.  When no other timer is armed and
    the timer of a message that is not acked fires, a resend function that
    returns an error is run once and after that no timer can fire: the
    message is not resent again unless [SetRTO] is called anew. *)
Theorem failed_resend_stops rto (m : UDPMessage) ts w :
  ~ is_acked (base m) ->
  (fn w).2 <> None ->
  Forall (fun t => timer_st t <> Armed) ts ->
  exists s,
    fire_current fn (SetRTO rto (mkRto m ts w)) = Some s
    /\ rto_world s = (fn w).1
    /\ forall i, fire fn i s = None.
Proof.
  intros Hn Herr Hts.
  unfold fire_current, SetRTO, fire.
  cbn [rto_msg rto_timers rto_world resendTimer set_resendTimer].
  rewrite lookup_app_r, Nat.sub_diag by lia. cbn [lookup list_lookup].
  rewrite rto_callback_unacked by exact Hn.
  cbn [rto_msg rto_timers rto_world].
  destruct (fn w) as [w' [e|]] eqn:Hf; [| cbn in Herr; congruence].
  cbn [fst snd]. eexists. split; [reflexivity |].
  split; [reflexivity |].
  intros i. cbn [rto_timers].
  rewrite insert_app_r_alt, Nat.sub_diag by lia. cbn [insert list_insert].
  destruct ((ts ++ [mkTimer rto Expired]) !! i) as [[r st]|] eqn:Hi;
    [| reflexivity].
  destruct st; try reflexivity. exfalso.
  apply lookup_app_Some in Hi as [Hi|[_ Hi]].
  - rewrite Forall_lookup in Hts. now apply (Hts i _ Hi).
  - destruct (i - length ts)%nat as [|[|]]; cbn in Hi; congruence.
Qed.

End RTO_more.


Lemma resend_chain_witness :
  exists s,
    fire_current_n (resend_log [x61]) 3 rto3 = Some s
    /\ rto_world s = [[x61]; [x61]; [x61]]
    /\ transmittedAt (base (rto_msg s)) = 5.
Proof.
  destruct (resend_chain (resend_log [x61]) 200 udp_msg3 [] [] 3)
    as (m' & Hf & Hb & _).
  - vm_compute. intros H. discriminate H.
  - reflexivity.
  - eexists. split; [exact Hf |]. split; [reflexivity |].
    cbn [rto_msg SetRTO set_resendTimer base]. rewrite Hb. reflexivity.
Defined.

Lemma failed_resend_stops_witness :
  exists s,
    fire_current (resend_fails "no route" [x61]) rto3 = Some s
    /\ rto_world s = [[x61]]
    /\ forall i, fire (resend_fails "no route" [x61]) i s = None.
Proof.
  apply (failed_resend_stops (resend_fails "no route" [x61]) 200 udp_msg3 [] []).
  - vm_compute. intros H. discriminate H.
  - discriminate.
  - constructor.
Defined.

(** ** Write and WriteLoop *)

(** X12.  What a [Write] of a body below the size limit does, on a
    connection whose [waitBits] mirror the occupied slots.  It never panics.
    If the slot of the next seq is occupied it parks in [AddMsg]: the seq
    is taken all the same, nothing is written and nothing is pending for
    it.  Otherwise it completes with the socket's answer: the seq is the
    next one, the datagram [| type | seq | len | body |] is the one new
    datagram, the message is pending under its seq, is marked transmitted
    at [now] and has that datagram as its cache, and no older message is
    touched. *)
Theorem Write_outcome now err (body : list byte) (c : UDPConn) :
  mirrors (pending c) ->
  Z.of_nat (length body) <= 2 ^ 32 - 10 ->
  let s := wrap32 (seq c + 1) in
  let l := fresh (dom (msgs c)) in
  let d := msg_layout TYPE_NORMAL s (Z.of_nat (length body)) body in
  (occupied (pending c) (s mod 8) ->
     exists c', Write now err body c = WriteBlocked c'
       /\ seq c' = s /\ UdpConn c' = UdpConn c /\ pending c' = pending c)
  /\ (~ occupied (pending c) (s mod 8) ->
     exists c' msg,
       Write now err body c = WriteDone c' err
       /\ seq c' = s /\ UdpConn c' = UdpConn c ++ [d]
       /\ UDPPendingMap.Pending (pending c')
          = <[s := l]> (UDPPendingMap.Pending (pending c))
       /\ msgs c' !! l = Some msg
       /\ cache msg = d /\ Body msg = body /\ Seq msg = s
       /\ transmittedAt msg = now
       /\ Z.land (Status msg) MSG_STATUS_TRANSMITTED > 0
       /\ forall l', l' ∈ dom (msgs c) -> msgs c' !! l' = msgs c !! l').
Proof.
  intros Hmir Hl s l d.
  pose proof (mod8_range s) as Hr.
  unfold Write, Write_from_AddMsg, UDPPendingMap.AddMsg.
  cbn [seq pending msgs UdpConn]. fold s l.
  split.
  - intros Ho. apply (Hmir _ Hr) in Ho. rewrite Ho.
    eexists. split; [reflexivity |]. done.
  - intros Hno.
    destruct (UDPPendingMap.slot_taken _ _) eqn:Hb;
      [apply (Hmir _ Hr) in Hb; contradiction |].
    unfold heap_Transmitted. rewrite lookup_alter_eq, lookup_insert_eq.
    cbn [fmap option_fmap option_map].
    rewrite Bytes_New by exact Hl. fold d.
    unfold WriteBytes. cbn [seq pending msgs UdpConn].
    eexists _, _. split; [reflexivity |].
    cbn [seq pending msgs UdpConn UDPPendingMap.Pending UDPPendingMap.pm
         PendingMap.Pending].
    split; [reflexivity |]. split; [reflexivity |]. split; [reflexivity |].
    split; [apply lookup_insert_eq |].
    split; [reflexivity |]. split; [reflexivity |]. split; [reflexivity |].
    split; [reflexivity |].
    split.
    { unfold Status. cbn [status set_cache Transmitted].
      rewrite land_lor_same. unfold MSG_STATUS_TRANSMITTED. lia. }
    intros l' Hl'.
    assert (Hne : l <> l').
    { intros <-. apply (is_fresh (dom (msgs c))). exact Hl'. }
    rewrite lookup_insert_ne, lookup_alter_ne, lookup_insert_ne by done.
    reflexivity.
Qed.

Lemma Write_outcome_witness :
  exists c' msg,
    Write 7 None [x61; x62] NewUDPConn = WriteDone c' None
    /\ seq c' = 1
    /\ msgs c' !! fresh (dom (msgs NewUDPConn)) = Some msg
    /\ cache msg = msg_layout x00 1 2 [x61; x62]
    /\ transmittedAt msg = 7.
Proof.
  destruct (Write_outcome 7 None [x61; x62] NewUDPConn) as [_ Hdone].
  - apply window_inv_new.
  - vm_compute. discriminate.
  - destruct Hdone as (c' & msg & Hw & Hs & _ & _ & Hm & Hc & _ & _ & Ht & _).
    + intros (p & Hp & _). cbn in Hp. set_solver.
    + exists c', msg. split; [exact Hw |]. split; [exact Hs |].
      split; [exact Hm |]. split; [exact Hc | exact Ht].
Defined.

Lemma wrap32_add_l a b : wrap32 (wrap32 a + b) = wrap32 (a + b).
Proof. unfold wrap32. apply Z.add_mod_idemp_l. lia. Qed.

Lemma Write_cases now err (body : list byte) (c : UDPConn) :
  Z.of_nat (length body) <= 2 ^ 32 - 10 ->
  let s := wrap32 (seq c + 1) in
  (exists c', Write now err body c = WriteBlocked c'
     /\ seq c' = s /\ UdpConn c' = UdpConn c)
  \/ (exists c', Write now err body c = WriteDone c' err
     /\ seq c' = s
     /\ UdpConn c' = UdpConn c
          ++ [msg_layout TYPE_NORMAL s (Z.of_nat (length body)) body]).
Proof.
  intros Hl s.
  destruct (Write now err body c) as [c'|p|c' e] eqn:HW.
  - left. exists c'. split; [reflexivity |].
    unfold Write, Write_from_AddMsg, UDPPendingMap.AddMsg in HW.
    cbn [seq pending msgs UdpConn] in HW.
    destruct (UDPPendingMap.slot_taken _ _).
    + injection HW as <-. done.
    + unfold heap_Transmitted in HW.
      rewrite lookup_alter_eq, lookup_insert_eq in HW.
      cbn [fmap option_fmap option_map] in HW.
      rewrite Bytes_New in HW by exact Hl. discriminate.
  - exfalso.
    unfold Write, Write_from_AddMsg, UDPPendingMap.AddMsg in HW.
    cbn [seq pending msgs UdpConn] in HW.
    destruct (UDPPendingMap.slot_taken _ _); [discriminate |].
    unfold heap_Transmitted in HW.
    rewrite lookup_alter_eq, lookup_insert_eq in HW.
    cbn [fmap option_fmap option_map] in HW.
    rewrite Bytes_New in HW by exact Hl. discriminate.
  - right. destruct (Write_datagram now err body c c' e Hl HW) as (Hu & Hs & ->).
    exists c'. done.
Qed.

Lemma datagrams_cons s0 (b : list byte) bs :
  datagrams s0 (b :: bs)
  = msg_layout TYPE_NORMAL (wrap32 (s0 + 1)) (Z.of_nat (length b)) b
    :: datagrams (wrap32 (s0 + 1)) bs.
Proof.
  unfold datagrams. rewrite imap_cons. f_equal.
  - now rewrite Z.add_0_r.
  - apply imap_ext. intros i x _. cbn. f_equal.
    replace (wrap32 (s0 + 1) + 1 + Z.of_nat i)
      with (wrap32 (s0 + 1) + (1 + Z.of_nat i)) by lia.
    rewrite wrap32_add_l. f_equal. lia.
Qed.

Lemma written_cons (c c1 c' : UDPConn) x rest :
  seq c1 = wrap32 (seq c + 1) ->
  UdpConn c1 = UdpConn c
    ++ [msg_layout TYPE_NORMAL (wrap32 (seq c + 1)) (Z.of_nat (length x.2)) x.2] ->
  UdpConn c' = UdpConn c1 ++ datagrams (seq c1) (snd <$> rest) ->
  seq c' = wrap32 (seq c1 + Z.of_nat (length rest)) ->
  written c c' (x :: rest).
Proof.
  intros Hs Hu Hu' Hs'. split.
  - rewrite Hu', Hu, Hs. cbn [fmap list_fmap]. rewrite datagrams_cons.
    now rewrite <- app_assoc.
  - rewrite Hs', Hs, wrap32_add_l. f_equal. cbn [length]. lia.
Qed.

(** X13.  [WriteLoop] writes in channel order and stops at the first error.
    For messages below the size limit it never panics, and however it ends,
    the datagrams handed to the socket are those of a prefix of the
    messages received from [c.Out], in that order and with consecutive
    seqs.  It returns nil only when the channel is closed and every message
    was written without error; it returns an error only for the first
    write that failed, later messages are not written, and the deferred
    function calls [SetStatusToError] with that error; it stops early when
    a [Write] parks, that Write's seq being taken. *)
Theorem WriteLoop_in_order (out : list (Z * option string * list byte))
    (closed : bool) (c : UDPConn) :
  is_uint32 (seq c) ->
  Forall fits out ->
  match WriteLoop out closed c with
  | LoopPanic _ => False
  | LoopWaiting c' =>
      closed = false /\ written c c' out /\ Forall no_error out
  | LoopReturned c' None called =>
      called = None /\ closed = true /\ written c c' out
      /\ Forall no_error out
  | LoopReturned c' (Some e) called =>
      called = Some e
      /\ exists (k : nat) now b,
           out !! k = Some (now, Some e, b)
           /\ Forall no_error (take k out)
           /\ written c c' (take (S k) out)
  | LoopParked c' =>
      exists k : nat,
        (k < length out)%nat
        /\ Forall no_error (take k out)
        /\ UdpConn c' = UdpConn c ++ datagrams (seq c) (snd <$> take k out)
        /\ seq c' = wrap32 (seq c + Z.of_nat (S k))
  end.
Proof.
  revert c. induction out as [|[[now e] b] out IH]; intros c Hseq Hfit.
  - assert (Hw : written c c []).
    { split; [cbn; now rewrite app_nil_r |].
      cbn. rewrite Z.add_0_r. symmetry. now apply wrap32_small. }
    cbn [WriteLoop]. destruct closed.
    + split; [done |]. split; [done |]. split; [exact Hw | constructor].
    + split; [done |]. split; [exact Hw | constructor].
  - apply Forall_cons in Hfit as [Hb Hfit]. unfold fits in Hb. cbn in Hb.
    cbn [WriteLoop].
    destruct (Write_cases now e b c Hb) as [(c1 & -> & Hs & Hu)|(c1 & -> & Hs & Hu)].
    + exists 0%nat. cbn [take length fmap list_fmap].
      split; [lia |]. split; [constructor |].
      split; [rewrite Hu; cbn; now rewrite app_nil_r |].
      rewrite Hs. f_equal.
    + destruct e as [err|].
      * split; [reflexivity |]. exists 0%nat, now, b.
        split; [reflexivity |]. split; [constructor |].
        cbn [take]. rewrite take_0.
        apply (written_cons c c1 c1 (now, Some err, b) []);
          [exact Hs | exact Hu | cbn; now rewrite app_nil_r |].
        cbn. rewrite Z.add_0_r, Hs. unfold wrap32.
        now rewrite Z.mod_mod by lia.
      * assert (Hseq1 : is_uint32 (seq c1)).
        { rewrite Hs. unfold is_uint32, wrap32. apply Z.mod_pos_bound. lia. }
        specialize (IH c1 Hseq1 Hfit).
        destruct (WriteLoop out closed c1) as [c'|c'|p|c' [e'|] called].
        -- destruct IH as (Hc & [Hu' Hs'] & Hne).
           split; [exact Hc |].
           split; [now apply (written_cons c c1 c' (now, None, b) out) |].
           now constructor.
        -- destruct IH as (k & Hk & Hne & Hu' & Hs').
           exists (S k). cbn [take length].
           split; [lia |]. split; [now constructor |].
           split.
           ++ rewrite Hu', Hu, Hs. cbn [fmap list_fmap].
              rewrite datagrams_cons. now rewrite <- app_assoc.
           ++ rewrite Hs', Hs, wrap32_add_l. f_equal. lia.
        -- exact IH.
        -- destruct IH as (Hc & k & now' & b' & Hk & Hne & [Hu' Hs']).
           split; [exact Hc |]. exists (S k), now', b'.
           split; [exact Hk |]. split; [now constructor |].
           change (take (S (S k)) ((now, None, b) :: out))
             with ((now, None, b) :: take (S k) out).
           now apply (written_cons c c1 c' (now, None, b) (take (S k) out)).
        -- destruct IH as (Hc & Hcl & [Hu' Hs'] & Hne).
           split; [exact Hc |]. split; [exact Hcl |].
           split; [now apply (written_cons c c1 c' (now, None, b) out) |].
           now constructor.
Qed.

Lemma WriteLoop_in_order_witness :
  exists c',
    WriteLoop out3 true NewUDPConn
    = LoopReturned c' (Some "network is unreachable")
                      (Some "network is unreachable")
    /\ UdpConn c' = [msg_layout x00 1 1 [x61]; msg_layout x00 2 1 [x62]]
    /\ seq c' = 2.
Proof.
  assert (Hw : exists c', WriteLoop out3 true NewUDPConn
                 = LoopReturned c' (Some "network is unreachable")
                                   (Some "network is unreachable"))
    by (eexists; vm_compute; reflexivity).
  destruct Hw as [c' Hw]. exists c'. split; [exact Hw |].
  assert (Hseq : is_uint32 (seq NewUDPConn)) by (unfold is_uint32; cbn; lia).
  assert (Hfit : Forall fits out3)
    by (repeat constructor; unfold fits; cbn; lia).
  pose proof (WriteLoop_in_order out3 true NewUDPConn Hseq Hfit) as H.
  rewrite Hw in H. destruct H as (_ & k & now & b & Hk & _ & Hu & Hs).
  destruct k as [|[|[|k]]]; cbn in Hk; try discriminate.
  split; [exact Hu | exact Hs].
Defined.

(** ** A key added twice to the plain pending map *)

(** X14.  The plain pending map has no window: [AddMsg] under a key that is
    already pending proceeds and replaces the entry.  The later message is
    the one an ack of the key finds; the earlier message is left as its own
    [AddMsg] marked it, is filed nowhere, and a further ack of the key finds
    nothing. *)
Theorem PendingMap_AddMsg_replaces now1 now2 now3 now4 k (v1 v2 : loc)
    (h : heap) (m : PendingMap.t) (msg1 : Message) :
  v1 <> v2 ->
  h !! v1 = Some msg1 ->
  let a1 := PendingMap.AddMsg now1 k v1 h m in
  let a2 := PendingMap.AddMsg now2 k v2 a1.1 a1.2 in
  let d := PendingMap.DelMsg now3 k a2.1 a2.2 in
  PendingMap.Pending a2.2 = <[k := v2]> (PendingMap.Pending m)
  /\ d.2 = true
  /\ PendingMap.Pending d.1.2 = delete k (PendingMap.Pending m)
  /\ PendingMap.ackedMessages d.1.2 = <[k := v2]> (PendingMap.ackedMessages m)
  /\ d.1.1 !! v1 = Some (Transmitted now1 msg1)
  /\ (PendingMap.DelMsg now4 k d.1.1 d.1.2).2 = false.
Proof.
  intros Hne Hv a1 a2 d.
  unfold d, a2, a1, PendingMap.AddMsg, PendingMap.DelMsg.
  cbn [fst snd PendingMap.Pending PendingMap.ackedMessages].
  rewrite lookup_insert_eq.
  cbn [fst snd PendingMap.Pending PendingMap.ackedMessages].
  rewrite insert_insert_eq, delete_insert_eq, lookup_delete_eq.
  split; [reflexivity |]. split; [reflexivity |]. split; [reflexivity |].
  split; [reflexivity |]. split; [| reflexivity].
  unfold heap_Acked, heap_Transmitted.
  rewrite lookup_alter_ne, lookup_alter_ne, lookup_alter_eq, Hv by done.
  reflexivity.
Qed.

Lemma PendingMap_AddMsg_replaces_witness :
  let a1 := PendingMap.AddMsg 10 7 1%nat heap12 PendingMap.NewPendingMap in
  let a2 := PendingMap.AddMsg 20 7 2%nat a1.1 a1.2 in
  let d := PendingMap.DelMsg 30 7 a2.1 a2.2 in
  d.2 = true
  /\ PendingMap.ackedMessages d.1.2 = <[7 := 2%nat]> ∅
  /\ d.1.1 !! 1%nat = Some (Transmitted 10 (New TYPE_NORMAL 1 [x61])).
Proof.
  intros a1 a2 d.
  destruct (PendingMap_AddMsg_replaces 10 20 30 40 7 1%nat 2%nat heap12
              PendingMap.NewPendingMap (New TYPE_NORMAL 1 [x61]))
    as (_ & Hd & _ & Ha & Hh & _); [lia | reflexivity |].
  split; [exact Hd |]. split; [exact Ha | exact Hh].
Defined.

(** ** The statistics of analyse *)

Lemma max_fold lats mx :
  let r := fold_left max_step lats mx in
  mx <= r /\ (forall l, l ∈ lats -> l <= r) /\ (r = mx \/ r ∈ lats).
Proof.
  revert mx. induction lats as [|l lats IH]; intros mx; cbn [fold_left].
  - split; [lia |]. split; [intros l Hl; inversion Hl | now left].
  - destruct (IH (max_step mx l)) as (H1 & H2 & H3).
    assert (Hs : mx <= max_step mx l /\ l <= max_step mx l
                 /\ (max_step mx l = mx \/ max_step mx l = l)).
    { unfold max_step. destruct (Z.ltb_spec mx l); lia. }
    split; [lia |]. split.
    + intros l' [->|Hl']%elem_of_cons; [lia | now apply H2].
    + destruct H3 as [H3|H3]; [| right; now right].
      destruct Hs as (_ & _ & [Hs|Hs]); [left; congruence |].
      right. rewrite H3, Hs. now left.
Qed.

Lemma min_fold_pos lats mn :
  Forall (fun l => 0 < l) lats -> 0 < mn ->
  let r := fold_left min_step lats mn in
  0 < r /\ r <= mn /\ (forall l, l ∈ lats -> r <= l) /\ (r = mn \/ r ∈ lats).
Proof.
  revert mn. induction lats as [|l lats IH]; intros mn Hpos Hmn; cbn [fold_left].
  - split; [lia |]. split; [lia |].
    split; [intros l Hl; inversion Hl | now left].
  - apply Forall_cons in Hpos as [Hl Hpos].
    assert (Hs : 0 < min_step mn l /\ min_step mn l <= mn /\ min_step mn l <= l
                 /\ (min_step mn l = mn \/ min_step mn l = l)).
    { unfold min_step. destruct (Z.eqb_spec mn 0); [lia |].
      cbn [orb]. destruct (Z.gtb_spec mn l); lia. }
    destruct (IH (min_step mn l) Hpos) as (H0 & H1 & H2 & H3); [lia |].
    split; [lia |]. split; [lia |]. split.
    + intros l' [->|Hl']%elem_of_cons; [lia | now apply H2].
    + destruct H3 as [H3|H3]; [| right; now right].
      destruct Hs as (_ & _ & _ & [Hs|Hs]); [left; congruence |].
      right. rewrite H3, Hs. now left.
Qed.

Lemma min_fold_zero lats :
  Forall (fun l => 0 < l) lats -> lats <> [] ->
  let r := fold_left min_step lats 0 in
  (forall l, l ∈ lats -> r <= l) /\ r ∈ lats.
Proof.
  destruct lats as [|l lats]; [done |]. intros Hpos _. cbn [fold_left].
  apply Forall_cons in Hpos as [Hl Hpos].
  change (min_step 0 l) with l.
  destruct (min_fold_pos lats l Hpos Hl) as (H0 & H1 & H2 & H3).
  split.
  - intros l' [->|Hl']%elem_of_cons; [lia | now apply H2].
  - destruct H3 as [->|H3]; [now left | now right].
Qed.

Lemma bytes_fold sizes b :
  Forall (fun z => 0 <= z) sizes -> 0 <= b -> b + sumZ sizes < 2 ^ 63 ->
  fold_left bytes_step sizes b = b + sumZ sizes.
Proof.
  revert b. induction sizes as [|z sizes IH]; intros b Hpos Hb Hsum;
    cbn [fold_left sumZ foldr] in *; [lia |].
  apply Forall_cons in Hpos as [Hz Hpos].
  assert (Hnn : 0 <= sumZ sizes).
  { clear -Hpos. induction Hpos; cbn [sumZ foldr]; [lia |].
    unfold sumZ in *. lia. }
  fold (sumZ sizes) in Hsum.
  assert (Hw : bytes_step b z = b + z).
  { unfold bytes_step, wrap_int. rewrite Z.mod_small; lia. }
  rewrite Hw, IH; [fold (sumZ sizes); lia | exact Hpos | lia | lia].
Qed.

Lemma sumZ_perm l l' : l ≡ₚ l' -> sumZ l = sumZ l'.
Proof.
  induction 1; cbn [sumZ foldr] in *; unfold sumZ in *; lia.
Qed.

Lemma sumZ_bounds l a b :
  (forall z, z ∈ l -> a <= z <= b) ->
  Z.of_nat (length l) * a <= sumZ l <= Z.of_nat (length l) * b.
Proof.
  induction l as [|z l IH]; intros H; cbn [sumZ foldr length]; [lia |].
  assert (Hz : a <= z <= b) by (apply H; now left).
  assert (Hl : forall z', z' ∈ l -> a <= z' <= b) by (intros z' Hz'; apply H; now right).
  specialize (IH Hl). fold (sumZ l). lia.
Qed.

Lemma TotalSize_nonneg msg : 0 <= TotalSize msg.
Proof. unfold TotalSize, MSG_HEADER_SIZE. destruct (decide _); lia. Qed.

Section Analyse_properties.
Variable Latency : Message -> Z.

Lemma fold_stats visit mx mn sm b :
  fold_left (stats_step Latency) visit (mx, mn, sm, b)
  = (fold_left max_step (Latency <$> visit) mx,
     fold_left min_step (Latency <$> visit) mn,
     sm + sumZ (Latency <$> visit),
     fold_left bytes_step (TotalSize <$> visit) b).
Proof.
  revert mx mn sm b. induction visit as [|v visit IH]; intros mx mn sm b.
  - cbn. now rewrite Z.add_0_r.
  - cbn [fold_left fmap list_fmap stats_step]. rewrite IH.
    cbn [sumZ foldr]. fold (sumZ (Latency <$> visit)).
    f_equal. f_equal. lia.
Qed.

(** What the statistics are, for positive latencies. *)
Lemma stats_of_spec visit :
  visit <> [] ->
  Forall (fun v => 0 < Latency v) visit ->
  sumZ (TotalSize <$> visit) < 2 ^ 63 ->
  let s := stats_of Latency visit in
  stat_count s = Z.of_nat (length visit)
  /\ stat_bytesSent s = sumZ (TotalSize <$> visit)
  /\ stat_avg s = sumZ (Latency <$> visit) / Z.of_nat (length visit)
  /\ (exists v, v ∈ visit /\ Latency v = stat_max s)
  /\ (forall v, v ∈ visit -> Latency v <= stat_max s)
  /\ (exists v, v ∈ visit /\ Latency v = stat_min s)
  /\ (forall v, v ∈ visit -> stat_min s <= Latency v).
Proof.
  intros Hne Hpos Hsum s. unfold s, stats_of. rewrite fold_stats.
  cbn [stat_count stat_bytesSent stat_avg stat_max stat_min].
  assert (Hlpos : Forall (fun l => 0 < l) (Latency <$> visit))
    by (apply Forall_fmap; exact Hpos).
  assert (Hlne : Latency <$> visit <> []) by (destruct visit; done).
  destruct (max_fold (Latency <$> visit) 0) as (M0 & M1 & M2).
  destruct (min_fold_zero (Latency <$> visit) Hlpos Hlne) as (N1 & N2).
  split; [reflexivity |].
  split.
  { rewrite bytes_fold; [lia | | lia | lia].
    apply Forall_fmap, Forall_forall. intros v _. apply TotalSize_nonneg. }
  split; [reflexivity |].
  split.
  { destruct M2 as [M2|M2].
    - exfalso. destruct visit as [|v visit]; [done |].
      apply Forall_cons in Hpos as [Hv _].
      specialize (M1 (Latency v)). rewrite M2 in M1.
      assert (Latency v <= 0) by (apply M1; cbn; now left). lia.
    - apply list_elem_of_fmap in M2 as (v & Hv & Hin). now exists v. }
  split.
  { intros v Hv. apply M1. now apply list_elem_of_fmap_2. }
  split.
  { apply list_elem_of_fmap in N2 as (v & Hv & Hin). now exists v. }
  intros v Hv. apply N1. now apply list_elem_of_fmap_2.
Qed.

(** X15.  The statistics of [analyse] for a minute in which every acked
    message has a positive latency (and the sizes do not overflow [int]):
    the count is the number of messages, the bytes are the sum of their
    [TotalSize], max and min are the largest and the smallest latency, the
    average is the floor of their mean and lies between min and max.  None
    of it depends on the order in which [range] visits the map. *)
Theorem analyse_statistics (visit visit' : list Message) :
  visit <> [] ->
  Forall (fun v => 0 < Latency v) visit ->
  sumZ (TotalSize <$> visit) < 2 ^ 63 ->
  visit ≡ₚ visit' ->
  let s := stats_of Latency visit in
  stat_count s = Z.of_nat (length visit)
  /\ stat_bytesSent s = sumZ (TotalSize <$> visit)
  /\ stat_avg s = sumZ (Latency <$> visit) / Z.of_nat (length visit)
  /\ (exists v, v ∈ visit /\ Latency v = stat_max s)
  /\ (forall v, v ∈ visit -> Latency v <= stat_max s)
  /\ (exists v, v ∈ visit /\ Latency v = stat_min s)
  /\ (forall v, v ∈ visit -> stat_min s <= Latency v)
  /\ stat_min s <= stat_avg s <= stat_max s
  /\ stats_of Latency visit' = s
  /\ forall a, analyse_tick Latency visit' a = analyse_tick Latency visit a.
Proof.
  intros Hne Hpos Hsum Hperm s.
  destruct (stats_of_spec visit Hne Hpos Hsum)
    as (Hc & Hb & Ha & (vM & HvM & HM) & HMall & (vm & Hvm & Hm) & Hmall).
  fold s in Hc, Hb, Ha, HM, HMall, Hm, Hmall.
  assert (Hne' : visit' <> []).
  { intros ->. apply Permutation_nil_r in Hperm. done. }
  assert (Hpos' : Forall (fun v => 0 < Latency v) visit') by now rewrite <- Hperm.
  assert (Hsum' : sumZ (TotalSize <$> visit') < 2 ^ 63).
  { rewrite <- (sumZ_perm (TotalSize <$> visit) (TotalSize <$> visit'));
      [exact Hsum | now apply fmap_Permutation]. }
  destruct (stats_of_spec visit' Hne' Hpos' Hsum')
    as (Hc' & Hb' & Ha' & (vM' & HvM' & HM') & HMall' & (vm' & Hvm' & Hm')
        & Hmall').
  set (s' := stats_of Latency visit') in *.
  assert (Heq : s' = s).
  { destruct s as [b M mn av c], s' as [b' M' mn' av' c'].
    cbn [stat_count stat_bytesSent stat_avg stat_max stat_min] in *.
    assert (Hlen : length visit' = length visit)
      by (symmetry; now apply Permutation_length).
    f_equal.
    - rewrite Hb, Hb'. symmetry. apply sumZ_perm. now apply fmap_Permutation.
    - assert (M' <= M) by (rewrite <- HM'; apply HMall; now rewrite Hperm).
      assert (M <= M') by (rewrite <- HM; apply HMall'; now rewrite <- Hperm).
      lia.
    - assert (mn <= mn') by (rewrite <- Hm'; apply Hmall; now rewrite Hperm).
      assert (mn' <= mn) by (rewrite <- Hm; apply Hmall'; now rewrite <- Hperm).
      lia.
    - rewrite Ha, Ha', Hlen. f_equal. symmetry. apply sumZ_perm.
      now apply fmap_Permutation.
    - rewrite Hc, Hc', Hlen. reflexivity. }
  split; [exact Hc |]. split; [exact Hb |]. split; [exact Ha |].
  split; [now exists vM |]. split; [exact HMall |].
  split; [now exists vm |]. split; [exact Hmall |].
  split.
  { assert (Hn : 0 < Z.of_nat (length visit)) by (destruct visit; [done | cbn; lia]).
    destruct (sumZ_bounds (Latency <$> visit) (stat_min s) (stat_max s))
      as [Hlo Hhi].
    { intros z (v & -> & Hv)%list_elem_of_fmap. split; [now apply Hmall | now apply HMall]. }
    rewrite length_fmap in Hlo, Hhi. rewrite Ha. split.
    - apply Z.div_le_lower_bound; lia.
    - apply Z.div_le_upper_bound; lia. }
  split; [exact Heq |].
  intros a. unfold analyse_tick. fold s s'. now rewrite Heq.
Qed.

End Analyse_properties.

Lemma analyse_statistics_witness :
  stats_of rtt acked3 = mkStats 31 30 10 20 3
  /\ stats_of rtt (reverse acked3) = stats_of rtt acked3.
Proof.
  destruct (analyse_statistics rtt acked3 (reverse acked3))
    as (_ & _ & _ & _ & _ & _ & _ & _ & Heq & _).
  - discriminate.
  - repeat constructor.
  - vm_compute. reflexivity.
  - symmetry. apply reverse_Permutation.
  - split; [vm_compute; reflexivity | exact Heq].
Defined.

Lemma min_fold_nonneg lats mn :
  Forall (fun l => 0 <= l) lats -> 0 <= mn -> 0 <= fold_left min_step lats mn.
Proof.
  revert mn. induction lats as [|l lats IH]; intros mn Hpos Hmn; cbn [fold_left];
    [exact Hmn |].
  apply Forall_cons in Hpos as [Hl Hpos]. apply IH; [exact Hpos |].
  unfold min_step. destruct ((mn =? 0) || (mn >? l)); lia.
Qed.

(** X16.  A latency of 0 makes [analyse] forget the minimum so far: with
    latencies that are not negative, the min reported for a visit order is
    the one of the messages visited after the last message of latency 0
    alone (0 if there is none after it), whatever came before. *)
Theorem analyse_min_forgets_at_zero (Latency : Message -> Z)
    (before after : list Message) (v0 : Message) :
  Forall (fun v => 0 <= Latency v) before ->
  Latency v0 = 0 ->
  stat_min (stats_of Latency (before ++ v0 :: after))
  = stat_min (stats_of Latency after).
Proof.
  intros Hpos H0. unfold stats_of. rewrite !fold_stats.
  cbn [stat_min]. rewrite fmap_app, fold_left_app. cbn [fmap list_fmap fold_left].
  rewrite H0.
  set (m := fold_left min_step (Latency <$> before) 0).
  assert (Hm : 0 <= m).
  { apply min_fold_nonneg; [| lia]. apply Forall_fmap. exact Hpos. }
  assert (Hz : min_step m 0 = 0).
  { unfold min_step. destruct (Z.eqb_spec m 0); [reflexivity |].
    cbn [orb]. destruct (Z.gtb_spec m 0); [reflexivity | lia]. }
  now rewrite Hz.
Qed.

Lemma analyse_min_forgets_at_zero_witness :
  stat_min (stats_of rtt (acked3 ++ New TYPE_NORMAL 4 [] :: [])) = 0
  /\ stat_min (stats_of rtt (New TYPE_NORMAL 4 [] :: acked3)) = 10.
Proof.
  pose proof (analyse_min_forgets_at_zero rtt acked3 [] (New TYPE_NORMAL 4 []))
    as H1.
  pose proof (analyse_min_forgets_at_zero rtt [] acked3 (New TYPE_NORMAL 4 []))
    as H2.
  split.
  - rewrite H1; [reflexivity | | reflexivity].
    repeat constructor; cbn; lia.
  - transitivity (stat_min (stats_of rtt acked3)); [| vm_compute; reflexivity].
    apply H2; [constructor | reflexivity].
Defined.
